(** * Clementine: the playlist manager

    A shallow embedding of [src/playlist/playlistmanager.cpp].  The manager
    owns a [QMap] from playlist id to playlist, keeps two cursors into it
    ([current_] and [active_]), re-broadcasts signals and keeps playlist items
    in step with the library.

    The C++ member functions become computations in a state-and-abort monad
    [M] over the manager's fields.  Signals that the manager emits are
    appended to the ghost field [emitted].  The monad also remembers every
    state a run has passed through, so that the order of side effects inside
    one member function can be stated.

    A run aborts where the program stops: at a [Q_ASSERT] that does not hold
    (as in a debug build), at [qFatal], and where a null pointer would be
    dereferenced; the outcome keeps the state the run had reached.  The
    [connect] calls wire signals of the collaborators to slots of the
    manager; they change no field and are left out.  Of the signals that a
    playlist raises by itself, the [PlaylistChanged] that follows the
    insertion of songs in [New] is modelled, with the two slots that
    [AddPlaylist] connects to it; the others are left out. *)

From Stdlib Require Import ZArith Ascii String Lia.
From stdpp Require Import base option list list_numbers gmap strings pretty.

Local Open Scope Z_scope.

(** ** Machine integers *)

(** C++ [int]: 32 bits, two's complement. *)
Definition int (z : Z) : Z := (z + 2 ^ 31) `mod` 2 ^ 32 - 2 ^ 31.

(** [quint64]: 64 bits, unsigned. *)
Definition quint64 (z : Z) : Z := z `mod` 2 ^ 64.

(** ** Qt strings *)

(** [tr]: the source text itself when no translation is installed. *)
Definition tr (s : string) : string := s.

(** [QString::arg]: every occurrence of the place marker [%1] is replaced. *)
Fixpoint arg (pattern a : string) : string :=
  match pattern with
  | EmptyString => EmptyString
  | String "%"%char (String "1"%char rest) => a +:+ arg rest a
  | String c rest => String c (arg rest a)
  end.

(** [QFileInfo] splits a path at the last slash, and the file name at its
    first or at its last dot. *)
Module QFileInfo.

Fixpoint has (c : ascii) (s : string) : bool :=
  match s with
  | EmptyString => false
  | String c' s' => if decide (c' = c) then true else has c s'
  end.

Fixpoint fileName (path : string) : string :=
  match path with
  | EmptyString => EmptyString
  | String c rest =>
      if has "/"%char path then fileName rest else path
  end.

Fixpoint up_to_first (c : ascii) (s : string) : string :=
  match s with
  | EmptyString => EmptyString
  | String c' s' =>
      if decide (c' = c) then EmptyString else String c' (up_to_first c s')
  end.

Fixpoint up_to_last (c : ascii) (s : string) : string :=
  match s with
  | EmptyString => EmptyString
  | String c' s' =>
      if decide (c' = c) then
        if has c s' then String c' (up_to_last c s') else EmptyString
      else String c' (up_to_last c s')
  end.

(** [baseName]: the file name up to, and without, its first dot. *)
Definition baseName (path : string) : string :=
  up_to_first "."%char (fileName path).

(** [completeBaseName]: the file name up to, and without, its last dot. *)
Definition completeBaseName (path : string) : string :=
  up_to_last "."%char (fileName path).

End QFileInfo.

(** ** Songs, playlist items and playlists *)

(** Modelled from the spec: the [Song] class ([core/song.h] is not part of
    the sources at hand).  An entity carries a stable id, used as the
    cross-reference key, a length in seconds (not positive when unset) and
    further metadata, for which [title] stands. *)
Module Song.
Record t := mk { id : Z; title : string; length : Z }.
End Song.

Abbreviation SongList := (list Song.t).

(** Modelled from the spec: playlist items ([playlistitem.h] and
    [library/libraryplaylistitem.h] are missing).  An item caches the
    metadata of a song and optionally references a catalog entity by its
    id; [library] tells whether it is catalog-backed.  [SetMetadata] updates
    the cached metadata in place from the discovered entity record. *)
Module PlaylistItem.
Record t := mk { library : bool; Metadata : Song.t }.

Definition SetMetadata (song : Song.t) (item : t) : t :=
  mk (library item) song.

(** The item is catalog-backed and references the entity [song_id]. *)
Definition references (song_id : Z) (item : t) : bool :=
  library item && bool_decide (Song.id (Metadata item) = song_id).
End PlaylistItem.

(** A [PlaylistSequence*], a [LibraryBackend*]: the objects are never
    looked into, only their addresses are passed on. *)
Inductive PlaylistSequence := PlaylistSequence_at (address : positive).
Inductive LibraryBackend := LibraryBackend_at (address : positive).

(** Modelled from the spec: the [Playlist] class ([playlist.h] and
    [playlist.cpp] are missing).  A collection is bound to the id given at
    construction, owns an ordered sequence of items, and has a
    currently-playing-row marker ([current_index], -1 when unset).  The
    interface the manager uses is [InsertItems], [RowCount],
    [TotalDuration], [ItemsReferencingEntity] and [SetPlayingRow]. *)
Module Playlist.
Record t := mk {
  id : Z;
  sequence : option PlaylistSequence;
  current_index : Z;
  items : list PlaylistItem.t
}.

(** [new Playlist(backend, id)]: bound to [id], with no sequence yet, no
    playing row and no item.  The store handle serves the playlist's own
    loading and saving, which the manager takes no part in. *)
Definition new (id : Z) : t := mk id None (-1) [].

Definition set_sequence (seq : option PlaylistSequence) (pl : t) : t :=
  mk (id pl) seq (current_index pl) (items pl).

Definition set_current_index (i : Z) (pl : t) : t :=
  mk (id pl) (sequence pl) i (items pl).

Definition set_items (its : list PlaylistItem.t) (pl : t) : t :=
  mk (id pl) (sequence pl) (current_index pl) its.

(** The songs of a file are inserted at the end, as items that are not
    catalog-backed. *)
Definition InsertSongs (songs : SongList) (pl : t) : t :=
  set_items (items pl ++ (PlaylistItem.mk false <$> songs)) pl.

Definition rowCount (pl : t) : Z := Z.of_nat (length (items pl)).

(** The total duration over all rows; an unset length contributes
    nothing. *)
Definition GetTotalLength (pl : t) : Z :=
  foldl (λ total item,
           let length := Song.length (PlaylistItem.Metadata item) in
           if bool_decide (0 < length) then quint64 (total + length)
           else total)
        0 (items pl).

(** The lookup entity id -> catalog-backed items referencing it.  An item
    pointer is modelled as the item's position in [items]. *)
Definition references_at (song_id : Z) (pl : t) (i : nat) : bool :=
  match items pl !! i with
  | Some item => PlaylistItem.references song_id item
  | None => false
  end.

Definition library_items_by_id (song_id : Z) (pl : t) : list nat :=
  filter (λ i, references_at song_id pl i = true)
         (seq 0 (length (items pl))).

(** A call [item->SetMetadata(song)] through an item pointer. *)
Definition SetMetadata_at (song : Song.t) (pl : t) (i : nat) : t :=
  set_items (alter (PlaylistItem.SetMetadata song) i (items pl)) pl.
End Playlist.

(** ** The collaborators *)

(** Modelled from the spec: the store ([playlistbackend.cpp] is missing),
    through its contract: [CreatePlaylist(name) -> id | failure] (failure is
    -1), [RemovePlaylist(id)], [RenamePlaylist(id, name)],
    [SetPlaylistOrder(ids)], [GetAllPlaylists() -> [(id, name)]].  Nothing
    more is assumed of a store; [B] is the type of its states. *)
Module PlaylistBackend.
Record Playlist := mk { id : Z; name : string }.

Class Interface (B : Type) := {
  CreatePlaylist : string → B → Z * B;
  RemovePlaylist : Z → B → B;
  RenamePlaylist : Z → string → B → B;
  SetPlaylistOrder : list Z → B → B;
  GetAllPlaylists : B → list Playlist
}.
End PlaylistBackend.

(** Modelled from the spec: the parser ([playlistparsers/playlistparser.cpp]
    is missing): [Load(path) -> entities]. *)
Module PlaylistParser.
Class Interface := { Load : string → SongList }.
End PlaylistParser.

(** Modelled from the spec: [Utilities::WordyTime] ([core/utilities.cpp] is
    missing), the wordy rendering of a duration in seconds. *)
Module Utilities.
Class Interface := { WordyTime : Z → string }.
End Utilities.

(** ** Selections *)

(** The model of a selection range is read only in its length column:
    [length_data i] is [index(i, Playlist::Column_Length).data().toInt()]. *)
Record QAbstractItemModel := { length_data : Z → Z }.

Record QItemSelectionRange := {
  model : QAbstractItemModel;
  top : Z;
  bottom : Z
}.

Abbreviation QItemSelection := (list QItemSelectionRange).

(** ** The manager's state *)

(** A [Playlist*] handed out by the manager: null, or the playlist owned
    by the entry of the index with that key. *)
Abbreviation PlaylistPtr := (option Z).

Inductive Signal :=
| PlaylistAdded (id : Z) (name : string)
| PlaylistRemoved (id : Z)
| PlaylistRenamed (id : Z) (new_name : string)
| CurrentChanged (new_playlist : PlaylistPtr)
| ActiveChanged (new_playlist : PlaylistPtr)
| SummaryTextChanged (summary : string)
| PlaylistChanged
| Error (message : string).

Module PlaylistManager.

(** [struct Data { Playlist* p; QString name; }]; the manager owns [p]. *)
Record Data := mkData { p : Playlist.t; name : string }.

Definition set_p (pl : Playlist.t) (d : Data) : Data := mkData pl (name d).
Definition set_name (n : string) (d : Data) : Data := mkData (p d) n.

Record t (B : Type) := mk {
  playlist_backend_ : option B;
  library_backend_ : option LibraryBackend;
  sequence_ : option PlaylistSequence;
  playlists_ : gmap Z Data;
  current_selection_ : QItemSelection;
  current_ : Z;
  active_ : Z;
  emitted : list Signal
}.
Arguments mk {B}.
Arguments playlist_backend_ {B}.
Arguments library_backend_ {B}.
Arguments sequence_ {B}.
Arguments playlists_ {B}.
Arguments current_selection_ {B}.
Arguments current_ {B}.
Arguments active_ {B}.
Arguments emitted {B}.

Section Setters.
Context {B : Type}.
Implicit Type s : t B.

Definition set_playlist_backend_ (b : option B) s : t B :=
  mk b (library_backend_ s) (sequence_ s) (playlists_ s)
     (current_selection_ s) (current_ s) (active_ s) (emitted s).
Definition set_library_backend_ (l : option LibraryBackend) s : t B :=
  mk (playlist_backend_ s) l (sequence_ s) (playlists_ s)
     (current_selection_ s) (current_ s) (active_ s) (emitted s).
Definition set_sequence_ (q : option PlaylistSequence) s : t B :=
  mk (playlist_backend_ s) (library_backend_ s) q (playlists_ s)
     (current_selection_ s) (current_ s) (active_ s) (emitted s).
Definition set_playlists_ (m : gmap Z Data) s : t B :=
  mk (playlist_backend_ s) (library_backend_ s) (sequence_ s) m
     (current_selection_ s) (current_ s) (active_ s) (emitted s).
Definition set_current_selection_ (sel : QItemSelection) s : t B :=
  mk (playlist_backend_ s) (library_backend_ s) (sequence_ s)
     (playlists_ s) sel (current_ s) (active_ s) (emitted s).
Definition set_current_ (id : Z) s : t B :=
  mk (playlist_backend_ s) (library_backend_ s) (sequence_ s)
     (playlists_ s) (current_selection_ s) id (active_ s) (emitted s).
Definition set_active_ (id : Z) s : t B :=
  mk (playlist_backend_ s) (library_backend_ s) (sequence_ s)
     (playlists_ s) (current_selection_ s) (current_ s) id (emitted s).
Definition set_emitted (sigs : list Signal) s : t B :=
  mk (playlist_backend_ s) (library_backend_ s) (sequence_ s)
     (playlists_ s) (current_selection_ s) (current_ s) (active_ s) sigs.
End Setters.

(** The constructor: no collaborator yet, no playlist, both cursors at
    the sentinel -1. *)
Definition constructed {B : Type} : t B :=
  mk None None None ∅ [] (-1) (-1) [].

(** *** The monad *)

Inductive Abort :=
| AssertionFailed   (* a Q_ASSERT does not hold *)
| FatalError        (* qFatal *)
| NullPointer.      (* a null pointer is dereferenced *)

(** A run ends normally with a result, or it stops, and then what it had
    done up to there ([stopped]) remains: the signals already emitted have
    been seen, the store has been written to. *)
Inductive Outcome (S A : Type) :=
| Done (a : A)
| Aborted (why : Abort) (stopped : S).
Arguments Done {S A}.
Arguments Aborted {S A}.

(** A run is at the state [now], having left the states [past] behind,
    oldest first. *)
Record Run (B : Type) := mkRun { now : t B; past : list (t B) }.
Arguments mkRun {B}.
Arguments now {B}.
Arguments past {B}.

Definition M (B A : Type) : Type := Run B → Outcome (Run B) (A * Run B).

#[export] Instance M_ret {B} : MRet (M B) := λ A a r, Done (a, r).
#[export] Instance M_bind {B} : MBind (M B) := λ A C f m r,
  match m r with
  | Done (a, r') => f a r'
  | Aborted why stopped => Aborted why stopped
  end.

Section Monad.
Context {B : Type}.

Definition get : M B (t B) := λ r, Done (now r, r).
Definition put (s : t B) : M B unit :=
  λ r, Done (tt, mkRun s (past r ++ [now r])).
Definition abort {A} (why : Abort) : M B A := λ r, Aborted why r.
Definition modify (f : t B → t B) : M B unit := s ← get; put (f s).

(** [Q_ASSERT] as a debug build compiles it: the run stops where the
    condition does not hold.  A release build compiles the check away and
    the member function carries on; the two builds agree on every call
    whose id is in the index. *)
Definition Q_ASSERT (cond : bool) : M B unit :=
  if cond then mret tt else abort AssertionFailed.

Definition emit (sig : Signal) : M B unit :=
  modify (λ s, set_emitted (emitted s ++ [sig]) s).

Fixpoint foreach {A} (l : list A) (body : A → M B unit) : M B unit :=
  match l with
  | [] => mret tt
  | x :: l' => body x;; foreach l' body
  end.

(** The states a run from [s] passes through, [s] first, together with
    its result. *)
Definition run {A} (m : M B A) (s : t B)
  : Outcome (list (t B)) (A * list (t B)) :=
  match m (mkRun s []) with
  | Done (a, r) => Done (a, past r ++ [now r])
  | Aborted why r => Aborted why (past r ++ [now r])
  end.

(** The state a run from [s] ends in, or stops in. *)
Definition exec {A} (m : M B A) (s : t B) : Outcome (t B) (t B) :=
  match m (mkRun s []) with
  | Done (_, r) => Done (now r)
  | Aborted why r => Aborted why (now r)
  end.
End Monad.

(** *** The index *)

(** Modelled from the spec: the index [playlists_] is declared in
    [playlistmanager.h], which is missing; [Remove] picks "the first in the
    index".  The index is a [QMap<int, Data>], which iterates in the order
    of its keys: [constBegin] is the entry with the smallest key. *)
Definition constBegin (m : gmap Z Data) : option (Z * Data) :=
  foldr (λ entry first,
           match first with
           | Some entry' =>
               if bool_decide (entry.1 < entry'.1) then Some entry
               else Some entry'
           | None => Some entry
           end)
        None (map_to_list m).

(** *** Selection ranges *)

(** The rows [top], ..., [bottom] that the inner [for] loop visits, none
    when [bottom < top]; [bottom] is a row of a model, below [INT_MAX]. *)
Definition rows (range : QItemSelectionRange) : list Z :=
  seqZ (top range) (bottom range - top range + 1).

(** One turn of the inner loop of [UpdateSummaryText]. *)
Definition add_row (range : QItemSelectionRange) (seconds i : Z) : Z :=
  let length := length_data (model range) i in
  if bool_decide (0 < length) then quint64 (seconds + length) else seconds.

(** One turn of its outer loop, on the pair [(selected, seconds)]. *)
Definition add_range (acc : Z * Z) (range : QItemSelectionRange) : Z * Z :=
  (int (acc.1 + int (int (bottom range - top range) + 1)),
   foldl (add_row range) acc.2 (rows range)).

(** *** Items kept in step with the library *)

(** The two inner loops of [SongsDiscovered], on one playlist. *)
Definition update_library_items (song : Song.t) (pl : Playlist.t)
  : Playlist.t :=
  let items := Playlist.library_items_by_id (Song.id song) pl in
  foldl (Playlist.SetMetadata_at song) pl items.

(** *** The member functions *)

Section Members.
Context {B : Type} `{!PlaylistBackend.Interface B}.
Context `{!PlaylistParser.Interface} `{!Utilities.Interface}.

Local Abbreviation M := (M B).

Definition contains (id : Z) : M bool :=
  s ← get;
  mret (match playlists_ s !! id with Some _ => true | None => false end).

(** Modelled from the spec: the accessors [playlist(id)], [current()]
    and [active()] of [playlistmanager.h], which is missing: the handle
    of the collection with that id, or that a cursor selects; null when
    the index has no such entry. *)
Definition playlist (id : Z) : M PlaylistPtr :=
  s ← get;
  mret (match playlists_ s !! id with Some _ => Some id | None => None end).
Definition current : M PlaylistPtr := s ← get; playlist (current_ s).
Definition active : M PlaylistPtr := s ← get; playlist (active_ s).

(** [ptr->...], reading. *)
Definition deref (ptr : PlaylistPtr) : M Playlist.t :=
  match ptr with
  | None => abort NullPointer
  | Some k =>
      s ← get;
      match playlists_ s !! k with
      | Some data => mret (p data)
      | None => abort NullPointer
      end
  end.

(** [ptr->method(...)], for a method that changes the playlist. *)
Definition call (ptr : PlaylistPtr) (method : Playlist.t → Playlist.t)
  : M unit :=
  match ptr with
  | None => abort NullPointer
  | Some k =>
      s ← get;
      match playlists_ s !! k with
      | Some data =>
          put (set_playlists_
                 (<[k := set_p (method (p data)) data]> (playlists_ s)) s)
      | None => abort NullPointer
      end
  end.

(** [playlist_backend_->...]: the store behind the pointer. *)
Definition backend : M B :=
  s ← get;
  match playlist_backend_ s with
  | Some b => mret b
  | None => abort NullPointer
  end.

Definition UpdateSummaryText : M unit :=
  cur ← current; pl ← deref cur;
  let tracks := Playlist.rowCount pl in
  s ← get;
  (* Get the length of the selected tracks *)
  let '(selected, seconds) :=
    foldl add_range (0, 0) (current_selection_ s) in
  let summary := EmptyString in
  '(summary, seconds) ←
    (if bool_decide (1 < selected) then
       mret (summary +:+ arg (tr "%1 selected of") (pretty selected)
                     +:+ " ", seconds)
     else
       cur ← current; pl ← deref cur;
       mret (summary, Playlist.GetTotalLength pl));
  let summary :=
    summary +:+ (if bool_decide (tracks = 1) then tr "1 track"
                 else arg (tr "%1 tracks") (pretty tracks)) in
  let summary :=
    if bool_decide (seconds ≠ 0) then
      summary +:+ " - [ " +:+ Utilities.WordyTime seconds +:+ " ]"
    else summary in
  emit (SummaryTextChanged summary).

Definition SetCurrentPlaylist (id : Z) : M unit :=
  ok ← contains id; Q_ASSERT ok;;
  modify (set_current_ id);;
  cur ← current; emit (CurrentChanged cur);;
  UpdateSummaryText.

Definition SetActivePlaylist (id : Z) : M unit :=
  ok ← contains id; Q_ASSERT ok;;
  (* Kinda a hack: unset the current item from the old active playlist
     before setting the new one *)
  s ← get;
  (if bool_decide (active_ s ≠ -1) && bool_decide (active_ s ≠ id) then
     act ← active; call act (Playlist.set_current_index (-1))
   else mret tt);;
  modify (set_active_ id);;
  act ← active; emit (ActiveChanged act).

Definition AddPlaylist (id : Z) (name : string) : M PlaylistPtr :=
  s ← get;
  (* new Playlist(playlist_backend_, id); set_sequence(sequence_) *)
  let ret := Playlist.set_sequence (sequence_ s) (Playlist.new id) in
  modify (λ s, set_playlists_ (<[id := mkData ret name]> (playlists_ s)) s);;
  emit (PlaylistAdded id name);;
  s ← get;
  (if bool_decide (current_ s = -1) then SetCurrentPlaylist id
   else mret tt);;
  s ← get;
  (if bool_decide (active_ s = -1) then SetActivePlaylist id
   else mret tt);;
  mret (Some id).

(** The two slots that [AddPlaylist] connects to the [PlaylistChanged] of
    every playlist, in the order of the [connect] calls: the signal is
    emitted again as the manager's own, then the summary is recomputed. *)
Definition PlaylistChanged_raised : M unit :=
  emit PlaylistChanged;;
  UpdateSummaryText.

(** [New(name, songs)]; [New(name)] is [New name []].  Modelled from the
    spec: a collection emits its content-changed notification when items
    are inserted into it, so [InsertSongs] raises [PlaylistChanged]. *)
Definition New (name : string) (songs : SongList) : M unit :=
  b ← backend;
  let '(id, b) := PlaylistBackend.CreatePlaylist name b in
  modify (set_playlist_backend_ (Some b));;
  (if bool_decide (id = -1) then abort FatalError else mret tt);;
  playlist ← AddPlaylist id name;
  call playlist (Playlist.InsertSongs songs);;
  PlaylistChanged_raised;;
  SetCurrentPlaylist id.

Definition Init (library_backend : LibraryBackend) (playlist_backend : B)
    (sequence : PlaylistSequence) : M unit :=
  modify (set_library_backend_ (Some library_backend));;
  modify (set_playlist_backend_ (Some playlist_backend));;
  modify (set_sequence_ (Some sequence));;
  foreach (PlaylistBackend.GetAllPlaylists playlist_backend)
          (λ p, AddPlaylist (PlaylistBackend.id p) (PlaylistBackend.name p);;
                mret tt);;
  (* If no playlist exists then make a new one *)
  s ← get;
  if bool_decide (playlists_ s = ∅) then New (tr "Playlist") []
  else mret tt.

Definition Load (filename : string) : M unit :=
  let songs := PlaylistParser.Load filename in
  match songs with
  | [] =>
      emit (Error (arg (tr "The playlist '%1' was empty or could not be loaded.")
                       (QFileInfo.completeBaseName filename)))
  | _ :: _ => New (QFileInfo.baseName filename) songs
  end.

Definition Rename (id : Z) (new_name : string) : M unit :=
  ok ← contains id; Q_ASSERT ok;;
  b ← backend;
  modify (set_playlist_backend_
            (Some (PlaylistBackend.RenamePlaylist id new_name b)));;
  modify (λ s, set_playlists_ (alter (set_name new_name) id (playlists_ s)) s);;
  emit (PlaylistRenamed id new_name).

Definition Remove (id : Z) : M unit :=
  ok ← contains id; Q_ASSERT ok;;
  s ← get;
  (* Won't allow removing the last playlist *)
  if bool_decide (size (playlists_ s) ≤ 1)%nat then mret tt
  else
    b ← backend;
    modify (set_playlist_backend_
              (Some (PlaylistBackend.RemovePlaylist id b)));;
    s ← get;
    match constBegin (playlists_ s) with
    | None => abort NullPointer
    | Some first =>
        let next_id := Playlist.id (p first.2) in
        s ← get;
        (if bool_decide (id = active_ s) then SetActivePlaylist next_id
         else mret tt);;
        s ← get;
        (if bool_decide (id = current_ s) then SetCurrentPlaylist next_id
         else mret tt);;
        modify (λ s, set_playlists_ (delete id (playlists_ s)) s);;
        emit (PlaylistRemoved id)
    end.

Definition ChangePlaylistOrder (ids : list Z) : M unit :=
  b ← backend;
  modify (set_playlist_backend_
            (Some (PlaylistBackend.SetPlaylistOrder ids b))).

Definition SelectionChanged (selection : QItemSelection) : M unit :=
  modify (set_current_selection_ selection);;
  UpdateSummaryText.

Definition SongsDiscovered (songs : SongList) : M unit :=
  (* Some songs might've changed in the library, let's update any
     playlist items we have that match those songs *)
  foreach songs (λ song,
    modify (λ s,
      set_playlists_
        ((λ data, set_p (update_library_items song (p data)) data)
           <$> playlists_ s) s)).
End Members.

End PlaylistManager.

Import PlaylistManager.

(** ** A store, a parser and a time format to run the manager with *)

Module Sample.

(** The rows of the playlists table, an id counter, and whether the
    database accepts writes. *)
Record Store := mkStore {
  table : list PlaylistBackend.Playlist;
  next_rowid : Z;
  writable : bool
}.

Definition rename_row (id : Z) (name : string)
    (row : PlaylistBackend.Playlist) : PlaylistBackend.Playlist :=
  if bool_decide (PlaylistBackend.id row = id) then PlaylistBackend.mk id name
  else row.

Definition row_with (store : Store) (id : Z)
  : option PlaylistBackend.Playlist :=
  head (filter (λ row, PlaylistBackend.id row = id) (table store)).

#[global] Instance store_interface : PlaylistBackend.Interface Store := {|
  PlaylistBackend.CreatePlaylist name store :=
    if writable store then
      (next_rowid store,
       mkStore (table store ++ [PlaylistBackend.mk (next_rowid store) name])
               (next_rowid store + 1) true)
    else (-1, store);
  PlaylistBackend.RemovePlaylist id store :=
    mkStore (filter (λ row, PlaylistBackend.id row ≠ id) (table store))
            (next_rowid store) (writable store);
  PlaylistBackend.RenamePlaylist id name store :=
    mkStore (rename_row id name <$> table store)
            (next_rowid store) (writable store);
  PlaylistBackend.SetPlaylistOrder ids store :=
    mkStore (omap (row_with store) ids) (next_rowid store) (writable store);
  PlaylistBackend.GetAllPlaylists store := table store
|}.

(** A parser that finds two songs in every file named [mix.*] and none
    elsewhere. *)
Definition two_songs : SongList :=
  [Song.mk 7 "Intro" 40; Song.mk 8 "Outro" 65].

#[global] Instance parser_interface : PlaylistParser.Interface := {|
  PlaylistParser.Load filename :=
    if bool_decide (QFileInfo.baseName filename = "mix") then two_songs
    else []
|}.

(** Minutes and seconds, for want of the real [WordyTime]. *)
Definition two_digits (n : Z) : string :=
  if bool_decide (n < 10) then "0" +:+ pretty n else pretty n.

#[global] Instance utilities_interface : Utilities.Interface := {|
  Utilities.WordyTime seconds :=
    pretty (seconds `div` 60) +:+ ":" +:+ two_digits (seconds `mod` 60)
|}.

(** A store holding the playlists 1 and 2, and the manager started on
    it. *)
Definition store12 : Store :=
  mkStore [PlaylistBackend.mk 1 "One"; PlaylistBackend.mk 2 "Two"] 3 true.

Definition started_on (store : Store) : Outcome (t Store) (t Store) :=
  exec (Init (LibraryBackend_at 1) store (PlaylistSequence_at 1)) constructed.

Definition playlist_of (id : Z) (name : string) (items : list PlaylistItem.t)
    (playing : Z) : Data :=
  mkData (Playlist.mk id (Some (PlaylistSequence_at 1)) playing items) name.

(** The state [Init] leaves on [store12]. *)
Definition manager12 : t Store :=
  mk (Some store12) (Some (LibraryBackend_at 1)) (Some (PlaylistSequence_at 1))
     (<[1 := playlist_of 1 "One" [] (-1)]>
        (<[2 := playlist_of 2 "Two" [] (-1)]> ∅))
     [] 1 1
     [PlaylistAdded 1 "One"; CurrentChanged (Some 1);
      SummaryTextChanged "0 tracks"; ActiveChanged (Some 1);
      PlaylistAdded 2 "Two"].

(** A manager with the single playlist 1. *)
Definition manager1 : t Store :=
  mk (Some (mkStore [PlaylistBackend.mk 1 "One"] 2 true))
     (Some (LibraryBackend_at 1)) (Some (PlaylistSequence_at 1))
     (<[1 := playlist_of 1 "One" [] (-1)]> ∅)
     [] 1 1 [].

(** The state [Remove 1] leaves [manager12] in. *)
Definition manager12_without_1 : t Store :=
  mk (Some (mkStore [PlaylistBackend.mk 2 "Two"] 3 true))
     (Some (LibraryBackend_at 1)) (Some (PlaylistSequence_at 1))
     (<[2 := playlist_of 2 "Two" [] (-1)]> ∅)
     [] 1 1
     [PlaylistAdded 1 "One"; CurrentChanged (Some 1);
      SummaryTextChanged "0 tracks"; ActiveChanged (Some 1);
      PlaylistAdded 2 "Two";
      ActiveChanged (Some 1); CurrentChanged (Some 1);
      SummaryTextChanged "0 tracks"; PlaylistRemoved 1].


(** Five tracks of 185 seconds in all; the second has no length set, and
    the first and third come from the library. *)
Definition five_items : list PlaylistItem.t :=
  [PlaylistItem.mk true (Song.mk 7 "Intro" 40);
   PlaylistItem.mk false (Song.mk 0 "Noise" 0);
   PlaylistItem.mk true (Song.mk 8 "Outro" 65);
   PlaylistItem.mk false (Song.mk 0 "Live" 30);
   PlaylistItem.mk false (Song.mk 0 "Encore" 50)].

(** The length column of a playlist model showing [items]. *)
Definition model_of (items : list PlaylistItem.t) : QAbstractItemModel :=
  {| length_data i :=
       if bool_decide (0 ≤ i) then
         default 0 (Song.length ∘ PlaylistItem.Metadata
                      <$> items !! Z.to_nat i)
       else 0 |}.

(** Playlist 1 holds the five tracks and plays its row 2; playlist 2 is
    empty; the rows 0 to 2 of playlist 1 are selected. *)
Definition manager5 : t Store :=
  mk (Some store12) (Some (LibraryBackend_at 1)) (Some (PlaylistSequence_at 1))
     (<[1 := playlist_of 1 "One" five_items 2]>
        (<[2 := playlist_of 2 "Two" [] (-1)]> ∅))
     [{| model := model_of five_items; top := 0; bottom := 2 |}]
     1 1 [].

(** The library has found song 7 again, with a new title and length. *)
Definition rediscovered : Song.t := Song.mk 7 "Intro (remastered)" 45.

End Sample.

(** ** Running the member functions *)

Arguments UpdateSummaryText : simpl never.
Arguments SetCurrentPlaylist : simpl never.
Arguments SetActivePlaylist : simpl never.
Arguments AddPlaylist : simpl never.
Arguments New : simpl never.
Arguments Remove : simpl never.
Arguments SongsDiscovered : simpl never.

Ltac unfold_monad :=
  unfold run, exec, Q_ASSERT, emit, modify, contains, playlist, current,
    active, deref, call, backend, abort, get, put, mbind, M_bind, mret,
    M_ret in *.

Ltac step := unfold_monad; simpl in *.

(** The playing-row marker of the playlist [id], when the index has it. *)
Definition playing_row {B} (id : Z) (s : t B) : option Z :=
  Playlist.current_index ∘ p <$> playlists_ s !! id.

(** ** The cursors *)

(** The index holds a playlist and both cursors are keys of it. *)
Definition valid_cursors {B} (s : t B) : Prop :=
  playlists_ s ≠ ∅ ∧
  is_Some (playlists_ s !! current_ s) ∧
  is_Some (playlists_ s !! active_ s).

(** The state of a manager that may not have gone through [Init] yet:
    no playlist and both cursors at the sentinel, or valid cursors. *)
Definition fresh_or_valid {B} (s : t B) : Prop :=
  (playlists_ s = ∅ ∧ current_ s = -1 ∧ active_ s = -1) ∨ valid_cursors s.

(** Every playlist of the index is bound to the id it is filed under. *)
Definition keyed {B} (s : t B) : Prop :=
  ∀ k data, playlists_ s !! k = Some data → Playlist.id (p data) = k.

(** Two indexes with the same keys, bound to playlists of the same ids. *)
Definition same_ids (m m' : gmap Z Data) : Prop :=
  ∀ k, Playlist.id ∘ p <$> m !! k = Playlist.id ∘ p <$> m' !! k.

Definition well_formed {B} (s : t B) : Prop := valid_cursors s ∧ keyed s.

(** ** The summary, in the words of the specification *)

Definition Zsum (l : list Z) : Z := foldr Z.add 0 l.

(** The length of a range. *)
Definition range_length (range : QItemSelectionRange) : Z :=
  bottom range - top range + 1.

(** [selectedCount]: the sum of the range lengths. *)
Definition selectedCount (selection : QItemSelection) : Z :=
  Zsum (range_length <$> selection).

(** What a row adds to [selectedSeconds]: its length field when positive,
    nothing otherwise. *)
Definition row_seconds (range : QItemSelectionRange) (i : Z) : Z :=
  if bool_decide (0 < length_data (model range) i)
  then length_data (model range) i else 0.

(** What the [count] rows from [first] on add. *)
Fixpoint seconds_from (range : QItemSelectionRange) (first : Z) (count : nat)
  : Z :=
  match count with
  | O => 0
  | S count => row_seconds range first + seconds_from range (first + 1) count
  end.

(** What a range adds: its rows are as many as its length, from [top]
    on. *)
Definition range_seconds (range : QItemSelectionRange) : Z :=
  seconds_from range (top range) (Z.to_nat (range_length range)).

(** [selectedSeconds]: over every row of every range. *)
Definition selectedSeconds (selection : QItemSelection) : Z :=
  Zsum (range_seconds <$> selection).

(** [listing] lists the rows of [range], those from [top] to [bottom],
    once each and in any order. *)
Definition lists_rows (range : QItemSelectionRange) (listing : list Z)
  : Prop :=
  NoDup listing ∧ ∀ i, i ∈ listing ↔ top range ≤ i ≤ bottom range.

(** [selectedSeconds], when [listings] gives the rows of each range of the
    selection. *)
Definition listedSeconds (selection : QItemSelection)
    (listings : list (list Z)) : Z :=
  Zsum (zip_with (λ range listing, Zsum (row_seconds range <$> listing))
                 selection listings).

(** The summary duration: per selection when more than one row is selected,
    that of the whole current collection otherwise. *)
Definition summary_duration (count seconds : Z) (current : Playlist.t) : Z :=
  if bool_decide (1 < count) then seconds
  else Playlist.GetTotalLength current.

(** [[<selectedCount> selected of ]<T> track(s)[ - [ <wordy duration> ]]] *)
Definition render `{!Utilities.Interface} (count T duration : Z) : string :=
  (if bool_decide (1 < count) then pretty count +:+ " selected of " else "")
  +:+ (if bool_decide (T = 1) then "1 track" else pretty T +:+ " tracks")
  +:+ (if bool_decide (duration ≠ 0)
       then " - [ " +:+ Utilities.WordyTime duration +:+ " ]" else "").

(** The text [UpdateSummaryText] emits in the state [s] when [current]
    is the current collection: the counters are those of the specification,
    held in an [int] and in a [quint64]. *)
Definition summary_text `{!Utilities.Interface} {B} (s : t B)
    (current : Playlist.t) : string :=
  let count := int (selectedCount (current_selection_ s)) in
  let seconds := quint64 (selectedSeconds (current_selection_ s)) in
  render count (Playlist.rowCount current)
         (summary_duration count seconds current).

(** ** The catalog sync, item by item *)

(** What the discovery of [song] makes of an item. *)
Definition discovered1 (song : Song.t) (item : PlaylistItem.t)
  : PlaylistItem.t :=
  if PlaylistItem.references (Song.id song) item
  then PlaylistItem.SetMetadata song item else item.

(** What the discovery of [songs], in this order, makes of an item. *)
Definition discovered (songs : SongList) (item : PlaylistItem.t)
  : PlaylistItem.t :=
  foldl (λ item song, discovered1 song item) item songs.

(** The last of [songs] that carries the id [song_id]. *)
Definition last_with (song_id : Z) (songs : SongList) : option Song.t :=
  last (filter (λ song, Song.id song = song_id) songs).

(** What the discovery of [songs] makes of an entry of the index. *)
Definition songs_discovered (songs : SongList) (data : Data) : Data :=
  set_p (Playlist.set_items (discovered songs <$> Playlist.items (p data))
                            (p data))
        data.

(** ** The states the cursor setters end in *)

(** [SetCurrentPlaylist id], when [data] is the entry of [id]. *)
Definition made_current `{!Utilities.Interface} {B} (id : Z) (data : Data)
    (s : t B) : t B :=
  set_emitted
    (emitted s ++ [CurrentChanged (Some id);
                   SummaryTextChanged (summary_text s (p data))])
    (set_current_ id s).

(** The playing-row marker of the active playlist unset, when [id] is
    another playlist. *)
Definition old_active_unset {B} (id : Z) (s : t B) : t B :=
  if bool_decide (active_ s ≠ -1) && bool_decide (active_ s ≠ id) then
    match playlists_ s !! active_ s with
    | Some old =>
        set_playlists_
          (<[active_ s := set_p (Playlist.set_current_index (-1) (p old)) old]>
             (playlists_ s)) s
    | None => s
    end
  else s.

(** [SetActivePlaylist id]. *)
Definition made_active {B} (id : Z) (s : t B) : t B :=
  set_emitted (emitted (old_active_unset id s) ++ [ActiveChanged (Some id)])
              (set_active_ id (old_active_unset id s)).

(** ** The state [AddPlaylist] ends in *)

(** The entry [AddPlaylist id name] files: a new playlist bound to [id]
    and wired to the sequence. *)
Definition new_entry {B} (id : Z) (name : string) (s : t B) : Data :=
  mkData (Playlist.set_sequence (sequence_ s) (Playlist.new id)) name.

Definition added `{!Utilities.Interface} {B} (id : Z) (name : string)
    (s : t B) : t B :=
  let s1 :=
    set_emitted (emitted s ++ [PlaylistAdded id name])
      (set_playlists_ (<[id := new_entry id name s]> (playlists_ s)) s) in
  let s2 :=
    if bool_decide (current_ s1 = -1)
    then made_current id (new_entry id name s) s1 else s1 in
  if bool_decide (active_ s2 = -1) then made_active id s2 else s2.

(** ** The operations on a started manager *)

Inductive Operation :=
| OpRegister (id : Z) (name : string)
| OpCreate (name : string) (songs : SongList)
| OpRename (id : Z) (new_name : string)
| OpRemove (id : Z)
| OpSetCurrent (id : Z)
| OpSetActive (id : Z)
| OpReorder (ids : list Z)
| OpSelectionChanged (selection : QItemSelection)
| OpCatalogSync (songs : SongList)
| OpLoadFromFile (filename : string)
| OpUpdateSummary.

Section Reachable.
Context {B : Type} `{!PlaylistBackend.Interface B}.
Context `{!PlaylistParser.Interface} `{!Utilities.Interface}.

Definition perform (op : Operation) : M B unit :=
  match op with
  | OpRegister id name => AddPlaylist id name;; mret tt
  | OpCreate name songs => New name songs
  | OpRename id new_name => Rename id new_name
  | OpRemove id => Remove id
  | OpSetCurrent id => SetCurrentPlaylist id
  | OpSetActive id => SetActivePlaylist id
  | OpReorder ids => ChangePlaylistOrder ids
  | OpSelectionChanged selection => SelectionChanged selection
  | OpCatalogSync songs => SongsDiscovered songs
  | OpLoadFromFile filename => Load filename
  | OpUpdateSummary => UpdateSummaryText
  end.

(** The states the manager can be in: [Init] has completed on the
    constructed manager, and operations that [allowed] admits have
    completed since. *)
Inductive reachable_by (allowed : t B → Operation → Prop) : t B → Prop :=
| reachable_Init library_backend store sequence s :
    exec (Init library_backend store sequence) constructed = Done s →
    reachable_by allowed s
| reachable_step s op s' :
    reachable_by allowed s →
    allowed s op →
    exec (perform op) s = Done s' →
    reachable_by allowed s'.

(** An operation other than the removal of the first entry of the index
    while a cursor is on it. *)
Definition spares_first (s : t B) (op : Operation) : Prop :=
  match op with
  | OpRemove id =>
      ∀ first, constBegin (playlists_ s) = Some first → first.1 = id →
               id ≠ current_ s ∧ id ≠ active_ s
  | _ => True
  end.

(** What the callers of the four member functions that open with
    [Q_ASSERT(playlists_.contains(id))] owe them: the id is in the
    index. *)
Definition asserted (s : t B) (op : Operation) : Prop :=
  match op with
  | OpRename id _ | OpRemove id | OpSetCurrent id | OpSetActive id =>
      is_Some (playlists_ s !! id)
  | _ => True
  end.

(** An operation called as its assertion demands, that spares the first
    entry of the index. *)
Definition admitted (s : t B) (op : Operation) : Prop :=
  asserted s op ∧ spares_first s op.
End Reachable.

(** ** The cursors while the stored playlists are registered *)

(** Where a cursor is after [AddPlaylist] has run on each of [rows] in
    turn: every registration moves a cursor that sits at the sentinel. *)
Definition cursor_after (cursor : Z) (rows : list PlaylistBackend.Playlist)
  : Z :=
  foldl (λ cursor row,
           if bool_decide (cursor = -1) then PlaylistBackend.id row
           else cursor)
        cursor rows.
Arguments cursor_after : simpl never.

(** The playlist [new Playlist(backend, id)] wired to [sequence]: no item,
    no playing row. *)
Definition empty_playlist (id : Z) (sequence : option PlaylistSequence)
  : Playlist.t :=
  Playlist.mk id sequence (-1) [].

(** ** Machine integers *)

Lemma int_small z : - 2 ^ 31 ≤ z < 2 ^ 31 → int z = z.
Proof. intros Hz. unfold int. rewrite Z.mod_small; lia. Qed.

Lemma int_add_l a b : int (int a + b) = int (a + b).
Proof.
  unfold int.
  replace ((a + 2 ^ 31) `mod` 2 ^ 32 - 2 ^ 31 + b + 2 ^ 31)
    with ((a + 2 ^ 31) `mod` 2 ^ 32 + b) by lia.
  rewrite Zplus_mod_idemp_l. f_equal. f_equal. lia.
Qed.

Lemma int_add_r a b : int (a + int b) = int (a + b).
Proof. rewrite (Z.add_comm a), int_add_l. f_equal. lia. Qed.

Lemma int_add_inner c a b : int (c + (int a + b)) = int (c + (a + b)).
Proof.
  replace (c + (int a + b)) with (int a + (c + b)) by lia.
  rewrite int_add_l. f_equal. lia.
Qed.

Lemma quint64_add_l a b : quint64 (quint64 a + b) = quint64 (a + b).
Proof. unfold quint64. apply Zplus_mod_idemp_l. Qed.

Lemma quint64_small z : 0 ≤ z < 2 ^ 64 → quint64 z = z.
Proof. intros Hz. unfold quint64. rewrite Z.mod_small; lia. Qed.

(** ** Strings *)

Lemma append_cons c s1 s2 : String c s1 +:+ s2 = String c (s1 +:+ s2).
Proof. reflexivity. Qed.

Lemma append_nil_l s : "" +:+ s = s.
Proof. reflexivity. Qed.

Lemma append_nil_r s : s +:+ "" = s.
Proof. induction s as [|c s IH]; [done|]. by rewrite append_cons, IH. Qed.

Lemma append_assoc s1 s2 s3 : (s1 +:+ s2) +:+ s3 = s1 +:+ (s2 +:+ s3).
Proof.
  induction s1 as [|c s1 IH]; [done|]. by rewrite !append_cons, IH.
Qed.

(** The base name starts the complete base name: what lies between the
    first and the last dot of the file name follows it. *)
Lemma up_to_last_extends c s :
  ∃ rest, QFileInfo.up_to_last c s = QFileInfo.up_to_first c s +:+ rest.
Proof.
  induction s as [|c' s [rest IH]]; simpl.
  - by exists "".
  - destruct (decide (c' = c)).
    + eexists. by rewrite append_nil_l.
    + exists rest. by rewrite IH, append_cons.
Qed.

Lemma completeBaseName_extends path :
  ∃ rest, QFileInfo.completeBaseName path = QFileInfo.baseName path +:+ rest.
Proof. apply up_to_last_extends. Qed.

(** ** The counters of [UpdateSummaryText] *)

Lemma quint64_range z : 0 ≤ quint64 z < 2 ^ 64.
Proof. unfold quint64. apply Z.mod_pos_bound. lia. Qed.

Lemma foldl_add_row range seconds (l : list Z) :
  0 ≤ seconds < 2 ^ 64 →
  foldl (add_row range) seconds l
  = quint64 (seconds + Zsum (row_seconds range <$> l)).
Proof.
  revert seconds. induction l as [|i l IH]; intros seconds Hseconds; csimpl.
  - rewrite Z.add_0_r. by rewrite quint64_small.
  - unfold add_row at 2, row_seconds at 1. case_bool_decide.
    + rewrite IH by apply quint64_range.
      rewrite quint64_add_l. f_equal; lia.
    + rewrite IH by done. f_equal; lia.
Qed.

Lemma Zsum_Permutation (l l' : list Z) : l ≡ₚ l' → Zsum l = Zsum l'.
Proof.
  unfold Zsum. induction 1; csimpl; lia.
Qed.

Lemma seconds_from_seqZ range first (count : nat) :
  Zsum (row_seconds range <$> seqZ first (Z.of_nat count))
  = seconds_from range first count.
Proof.
  revert first. induction count as [|count IH]; intros first; [done|].
  rewrite seqZ_cons by lia. csimpl.
  replace (Z.pred (Z.of_nat (S count))) with (Z.of_nat count) by lia.
  unfold Zsum in *. csimpl. rewrite <- IH. f_equal.
Qed.

(** The rows the inner loop visits add what the range adds. *)
Lemma range_seconds_rows range :
  Zsum (row_seconds range <$> rows range) = range_seconds range.
Proof.
  unfold rows, range_seconds. fold (range_length range).
  destruct (decide (0 ≤ range_length range)) as [Hlen|Hlen].
  - rewrite <- seconds_from_seqZ, Z2Nat.id by done. done.
  - replace (Z.to_nat (range_length range)) with 0%nat by lia.
    unfold seqZ. by replace (Z.to_nat (range_length range)) with 0%nat by lia.
Qed.

(** The inner loop visits the rows from [top] to [bottom], once each. *)
Lemma lists_rows_rows range : lists_rows range (rows range).
Proof.
  split; [apply NoDup_seqZ|].
  intros i. unfold rows. rewrite elem_of_seqZ. lia.
Qed.

Lemma lists_rows_seconds range listing :
  lists_rows range listing →
  Zsum (row_seconds range <$> listing) = range_seconds range.
Proof.
  intros [Hnodup Hrows]. rewrite <- range_seconds_rows.
  destruct (lists_rows_rows range) as [Hnodup' Hrows'].
  apply Zsum_Permutation, fmap_Permutation, NoDup_Permutation; [done..|].
  intros i. by rewrite Hrows, Hrows'.
Qed.

Lemma listedSeconds_selected selection listings :
  Forall2 lists_rows selection listings →
  listedSeconds selection listings = selectedSeconds selection.
Proof.
  unfold listedSeconds, selectedSeconds.
  induction 1 as [|range listing selection listings Hrows _ IH]; [done|].
  csimpl. unfold Zsum in *. csimpl. rewrite IH. f_equal.
  by apply lists_rows_seconds.
Qed.

Lemma foldl_add_range count seconds (selection : QItemSelection) :
  0 ≤ seconds < 2 ^ 64 →
  foldl add_range (count, seconds) selection
  = (if selection is [] then count
     else int (count + selectedCount selection),
     quint64 (seconds + selectedSeconds selection)).
Proof.
  revert count seconds.
  induction selection as [|range selection IH]; intros count seconds Hs.
  - csimpl. unfold selectedSeconds. csimpl. rewrite Z.add_0_r.
    by rewrite quint64_small.
  - csimpl. unfold add_range at 2. csimpl.
    rewrite foldl_add_row, range_seconds_rows by done.
    rewrite IH by apply quint64_range.
    unfold selectedCount, selectedSeconds. csimpl.
    rewrite quint64_add_l. f_equal.
    + rewrite int_add_r, int_add_inner. fold (range_length range).
      destruct selection as [|range' selection'].
      * csimpl. f_equal; lia.
      * rewrite int_add_l. f_equal. unfold selectedCount. csimpl. lia.
    + f_equal; lia.
Qed.

Lemma counters_of_selection (selection : QItemSelection) :
  foldl add_range (0, 0) selection
  = (int (selectedCount selection), quint64 (selectedSeconds selection)).
Proof.
  rewrite foldl_add_range by lia. destruct selection; [done|].
  by rewrite !Z.add_0_l.
Qed.

(** ** The catalog sync on one playlist *)

Lemma foldl_SetMetadata_at song pl (pointers : list nat) :
  foldl (Playlist.SetMetadata_at song) pl pointers
  = Playlist.set_items
      (foldl (λ items i, alter (PlaylistItem.SetMetadata song) i items)
             (Playlist.items pl) pointers)
      pl.
Proof.
  revert pl. induction pointers as [|i pointers IH]; intros pl; simpl.
  - by destruct pl.
  - by rewrite IH.
Qed.

Lemma lookup_foldl_alter {A} (f : A → A) (pointers : list nat) (l : list A) j :
  NoDup pointers →
  foldl (λ l i, alter f i l) l pointers !! j
  = if decide (j ∈ pointers) then f <$> l !! j else l !! j.
Proof.
  revert l. induction pointers as [|i pointers IH]; intros l Hnodup.
  - done.
  - cbn [foldl].
    apply NoDup_cons in Hnodup as [Hi Hnodup]. rewrite IH by done.
    destruct (decide (j = i)) as [->|Hne].
    + rewrite list_lookup_alter_eq, decide_False by done.
      rewrite decide_True; [done|]. apply elem_of_cons. by left.
    + rewrite list_lookup_alter_ne by done.
      destruct (decide (j ∈ pointers)) as [Hj|Hj].
      * rewrite decide_True; [done|]. apply elem_of_cons. by right.
      * rewrite decide_False; [done|].
        intros [?|?]%elem_of_cons; done.
Qed.

Lemma update_library_items_eq song pl :
  update_library_items song pl
  = Playlist.set_items (discovered1 song <$> Playlist.items pl) pl.
Proof.
  unfold update_library_items. rewrite foldl_SetMetadata_at. f_equal.
  apply list_eq; intros j.
  rewrite lookup_foldl_alter by (apply NoDup_filter, NoDup_seq).
  rewrite list_lookup_fmap. unfold Playlist.library_items_by_id.
  destruct (Playlist.items pl !! j) as [item|] eqn:Hj; simpl.
  - unfold discovered1.
    destruct (PlaylistItem.references (Song.id song) item) eqn:Href.
    + rewrite decide_True; [done|]. apply list_elem_of_filter. split.
      * unfold Playlist.references_at. by rewrite Hj.
      * apply elem_of_seq. apply lookup_lt_Some in Hj. lia.
    + rewrite decide_False; [done|].
      intros [Hat _]%list_elem_of_filter.
      unfold Playlist.references_at in Hat. rewrite Hj in Hat. congruence.
  - by case_decide.
Qed.

(** *** One item *)

Lemma last_with_Some song_id songs song :
  last_with song_id songs = Some song → Song.id song = song_id ∧ song ∈ songs.
Proof.
  intros Hlast%last_Some_elem_of. by apply list_elem_of_filter in Hlast.
Qed.

Lemma last_with_cons song_id song songs :
  last_with song_id (song :: songs)
  = if decide (Song.id song = song_id)
    then Some (default song (last_with song_id songs))
    else last_with song_id songs.
Proof.
  unfold last_with. rewrite filter_cons. case_decide; [|done].
  rewrite last_cons. by destruct (last _).
Qed.

Lemma last_with_is_Some song songs :
  song ∈ songs → is_Some (last_with (Song.id song) songs).
Proof.
  intros Hsong. apply last_is_Some. intros Hnil.
  assert (song ∈ filter (λ song', Song.id song' = Song.id song) songs) as Hin
    by by apply list_elem_of_filter.
  rewrite Hnil in Hin. by apply elem_of_nil in Hin.
Qed.

(** When no two discovered songs share an id, the last song carrying the
    id of a discovered song is that song. *)
Lemma last_with_unique song songs :
  NoDup (Song.id <$> songs) → song ∈ songs →
  last_with (Song.id song) songs = Some song.
Proof.
  induction songs as [|song0 songs IH]; intros Hnodup Hsong.
  - by apply elem_of_nil in Hsong.
  - rewrite fmap_cons in Hnodup. apply NoDup_cons in Hnodup as [Hfresh Hnodup].
    rewrite last_with_cons.
    destruct (last_with (Song.id song) songs) as [song'|] eqn:Hlast.
    + apply last_with_Some in Hlast as Hsong'. destruct Hsong' as [Hid' Hin'].
      case_decide as Hid0.
      * exfalso. apply Hfresh. rewrite Hid0, <- Hid'.
        by apply list_elem_of_fmap_2.
      * apply elem_of_cons in Hsong as [->|Hsong]; [done|].
        by apply IH.
    + apply elem_of_cons in Hsong as [->|Hsong].
      * by rewrite decide_True.
      * apply last_with_is_Some in Hsong. rewrite Hlast in Hsong.
        by destruct Hsong.
Qed.

(** An item that references an entity ends with the metadata of the last
    discovered song carrying that id; any other item is left alone. *)
Lemma discovered_last songs item :
  discovered songs item
  = if PlaylistItem.library item
    then match last_with (Song.id (PlaylistItem.Metadata item)) songs with
         | Some song => PlaylistItem.SetMetadata song item
         | None => item
         end
    else item.
Proof.
  revert item. induction songs as [|song songs IH]; intros item.
  - simpl. by destruct (PlaylistItem.library item).
  - change (discovered (song :: songs) item)
      with (discovered songs (discovered1 song item)).
    rewrite IH, last_with_cons. unfold discovered1, PlaylistItem.references.
    destruct item as [[] metadata]; simpl; [|done].
    case_bool_decide as Hid; simpl.
    + rewrite decide_True by done. rewrite Hid.
      by destruct (last_with _ songs).
    + by rewrite decide_False.
Qed.

Lemma discovered_idemp songs item :
  discovered songs (discovered songs item) = discovered songs item.
Proof.
  rewrite (discovered_last songs item).
  destruct item as [[] metadata]; simpl.
  - destruct (last_with (Song.id metadata) songs) as [song|] eqn:Hlast.
    + rewrite discovered_last. simpl.
      apply last_with_Some in Hlast as Hsong. destruct Hsong as [-> _].
      by rewrite Hlast.
    + rewrite discovered_last. simpl. by rewrite Hlast.
  - by rewrite discovered_last.
Qed.

Lemma songs_discovered_cons song songs data :
  songs_discovered songs (set_p (update_library_items song (p data)) data)
  = songs_discovered (song :: songs) data.
Proof.
  unfold songs_discovered. rewrite update_library_items_eq.
  destruct data as [pl name]. simpl.
  by rewrite <- list_fmap_compose.
Qed.

Lemma songs_discovered_nil data : songs_discovered [] data = data.
Proof.
  unfold songs_discovered. destruct data as [[] name]. simpl.
  by rewrite list_fmap_id.
Qed.

Lemma songs_discovered_idemp songs data :
  songs_discovered songs (songs_discovered songs data)
  = songs_discovered songs data.
Proof.
  unfold songs_discovered, set_p, Playlist.set_items.
  destruct data as [[id seq playing items] name]. simpl.
  rewrite <- list_fmap_compose.
  do 2 f_equal. apply list_fmap_ext. intros i item _. simpl.
  apply discovered_idemp.
Qed.

(** ** The first entry of the index *)

Lemma constBegin_Some (m : gmap Z Data) k data :
  constBegin m = Some (k, data) →
  m !! k = Some data ∧ ∀ k', is_Some (m !! k') → k ≤ k'.
Proof.
  unfold constBegin. intros Hfirst.
  assert ((k, data) ∈ map_to_list m ∧
          ∀ entry, entry ∈ map_to_list m → k ≤ entry.1) as [Hin Hleast].
  { revert k data Hfirst.
    induction (map_to_list m) as [|entry l IH]; intros k data Hfirst.
    - done.
    - simpl in Hfirst.
      destruct (foldr _ None l) as [[k' data']|] eqn:Hrest.
      + destruct (IH k' data' eq_refl) as [Hin' Hleast'].
        case_bool_decide as Hlt; simplify_eq; simpl in *.
        * split; [apply elem_of_cons; by left|].
          intros entry' [->|Hentry']%elem_of_cons; [simpl; lia|].
          apply Hleast' in Hentry'. lia.
        * split; [apply elem_of_cons; by right|].
          intros entry' [->|Hentry']%elem_of_cons; [simpl; lia|].
          by apply Hleast'.
      + simplify_eq. destruct l as [|entry' l]; [|simpl in Hrest].
        * split; [apply elem_of_cons; by left|].
          intros entry' [->|Hentry']%elem_of_cons; [simpl; lia|].
          by apply elem_of_nil in Hentry'.
        * destruct (foldr _ None l); [case_bool_decide|]; done. }
  split; [by apply elem_of_map_to_list|].
  intros k' [data' Hk']. apply (Hleast (k', data')).
  by apply elem_of_map_to_list.
Qed.

Lemma constBegin_is_Some (m : gmap Z Data) : m ≠ ∅ → is_Some (constBegin m).
Proof.
  intros Hm. unfold constBegin.
  destruct (map_to_list m) as [|entry l] eqn:Hl.
  - by apply map_to_list_empty_iff in Hl.
  - simpl. destruct (foldr _ None l); [case_bool_decide|]; by eexists.
Qed.

Lemma size_above_1_non_empty (m : gmap Z Data) : ¬ (size m ≤ 1)%nat → m ≠ ∅.
Proof. intros Hsize ->. rewrite map_size_empty in Hsize. lia. Qed.

(** ** Keys of the index *)

Lemma is_Some_lookup_insert (m : gmap Z Data) k data j :
  is_Some (m !! j) → is_Some (<[k := data]> m !! j).
Proof.
  intros Hj. destruct (decide (k = j)) as [->|Hne].
  - rewrite lookup_insert_eq. by eexists.
  - by rewrite lookup_insert_ne.
Qed.

Lemma lookup_is_Some_non_empty (m : gmap Z Data) k : is_Some (m !! k) → m ≠ ∅.
Proof. intros [data Hk] ->. by rewrite lookup_empty in Hk. Qed.

Lemma same_ids_refl m : same_ids m m.
Proof. done. Qed.

Lemma same_ids_trans m1 m2 m3 : same_ids m1 m2 → same_ids m2 m3 → same_ids m1 m3.
Proof. intros H12 H23 k. by rewrite H12. Qed.

Lemma same_ids_is_Some m m' k :
  same_ids m m' → is_Some (m !! k) → is_Some (m' !! k).
Proof.
  intros Hsame [data Hk]. specialize (Hsame k). rewrite Hk in Hsame.
  destruct (m' !! k); [by eexists|done].
Qed.

Lemma same_ids_insert m k data data' :
  m !! k = Some data → Playlist.id (p data') = Playlist.id (p data) →
  same_ids m (<[k := data']> m).
Proof.
  intros Hk Hid j. destruct (decide (k = j)) as [<-|Hne].
  - rewrite lookup_insert_eq, Hk. simpl. by rewrite Hid.
  - by rewrite lookup_insert_ne.
Qed.

Lemma same_ids_fmap (f : Data → Data) m :
  (∀ data, Playlist.id (p (f data)) = Playlist.id (p data)) →
  same_ids m (f <$> m).
Proof.
  intros Hf k. rewrite lookup_fmap. destruct (m !! k); [|done].
  simpl. by rewrite Hf.
Qed.

Lemma same_ids_alter (f : Data → Data) m k :
  (∀ data, Playlist.id (p (f data)) = Playlist.id (p data)) →
  same_ids m (alter f k m).
Proof.
  intros Hf j. destruct (decide (k = j)) as [<-|Hne].
  - rewrite lookup_alter_eq. destruct (m !! k); [|done]. simpl. by rewrite Hf.
  - by rewrite lookup_alter_ne.
Qed.

Lemma same_ids_delete m m' k :
  same_ids m m' → same_ids (delete k m) (delete k m').
Proof.
  intros Hsame j. destruct (decide (k = j)) as [<-|Hne].
  - by rewrite !lookup_delete_eq.
  - by rewrite !lookup_delete_ne.
Qed.

Lemma well_formed_same_ids {B} (s s' : t B) :
  well_formed s →
  same_ids (playlists_ s) (playlists_ s') →
  is_Some (playlists_ s' !! current_ s') →
  is_Some (playlists_ s' !! active_ s') →
  well_formed s'.
Proof.
  intros [_ Hkeyed] Hsame Hcurrent Hactive. split.
  - split; [by eapply lookup_is_Some_non_empty|done].
  - intros k data' Hk. specialize (Hsame k). rewrite Hk in Hsame.
    destruct (playlists_ s !! k) as [data|] eqn:Hk0; [|done].
    simpl in Hsame. injection Hsame as <-. by apply Hkeyed.
Qed.

Lemma songs_discovered_id songs data :
  Playlist.id (p (songs_discovered songs data)) = Playlist.id (p data).
Proof. done. Qed.

(** ** The state after [Init] on the sample store *)

Example started_on_store12 : Sample.started_on Sample.store12 = Done Sample.manager12.
Proof. vm_compute. reflexivity. Qed.

Section Properties.
Context {B : Type} `{!PlaylistBackend.Interface B}.
Context `{!PlaylistParser.Interface} `{!Utilities.Interface}.
Implicit Type s : t B.
Implicit Type r : Run B.

(** C3: removing the only playlist of the index does nothing at all: the
    run ends normally in the state it started from without having written
    any field, so the index, both cursors and the store are unchanged and
    no signal (neither [PlaylistRemoved] nor [Error]) is emitted. *)
Theorem Remove_last_is_noop s id :
  size (playlists_ s) = 1%nat →
  is_Some (playlists_ s !! id) →
  run (Remove id) s = Done (tt, [s]) ∧ exec (Remove id) s = Done s.
Proof.
  intros Hsize [data Hid]. unfold Remove. step.
  rewrite Hid. simpl. rewrite Hsize. simpl. done.
Qed.

(** C9: [ChangePlaylistOrder] hands the whole list of ids to the store
    and touches nothing else: the index, both cursors, the selection and
    the signals emitted so far are those of the state before. *)
Theorem ChangePlaylistOrder_forwards_only s store ids :
  playlist_backend_ s = Some store →
  ∃ s',
    exec (ChangePlaylistOrder ids) s = Done s' ∧
    playlist_backend_ s' = Some (PlaylistBackend.SetPlaylistOrder ids store) ∧
    playlists_ s' = playlists_ s ∧
    current_ s' = current_ s ∧
    active_ s' = active_ s ∧
    current_selection_ s' = current_selection_ s ∧
    emitted s' = emitted s.
Proof.
  intros Hstore. unfold ChangePlaylistOrder. step. rewrite Hstore. simpl.
  eexists. split; [reflexivity|]. done.
Qed.

(** C10: [SetActivePlaylist id] on the playlist that is active already
    leaves every playlist, and so the playing-row marker, as it is in each
    state of the run; the cursor is assigned and [ActiveChanged] is
    emitted all the same. *)
Theorem SetActivePlaylist_same_keeps_marker s id :
  active_ s = id →
  is_Some (playlists_ s !! id) →
  ∃ s' visited,
    run (SetActivePlaylist id) s = Done (tt, visited) ∧
    Forall (λ st, playlists_ st = playlists_ s) visited ∧
    last visited = Some s' ∧
    exec (SetActivePlaylist id) s = Done s' ∧
    playing_row id s' = playing_row id s ∧
    active_ s' = id ∧
    emitted s' = emitted s ++ [ActiveChanged (Some id)].
Proof.
  intros <- [data Hid]. unfold SetActivePlaylist. step.
  rewrite Hid. simpl.
  rewrite (bool_decide_eq_false_2 (active_ s ≠ active_ s))
    by (intros Hne; by apply Hne).
  rewrite andb_false_r. simpl. rewrite Hid. simpl.
  do 2 eexists. split; [reflexivity|].
  split; [repeat constructor|]. done.
Qed.

(** C4: [SetActivePlaylist id], with another playlist [old] active,
    passes through exactly four states: the state it starts in; [s1],
    where the playing-row marker of [old] is unset while [old] is still
    the active cursor and nothing has been emitted; [s2], where the cursor
    is [id]; and [s3], where [ActiveChanged] has been emitted. *)
Theorem SetActivePlaylist_unsets_marker_first s id old data :
  active_ s = old →
  old ≠ -1 →
  old ≠ id →
  playlists_ s !! old = Some data →
  is_Some (playlists_ s !! id) →
  ∃ s1 s2 s3,
    run (SetActivePlaylist id) s = Done (tt, [s; s1; s2; s3]) ∧
    (playing_row old s1 = Some (-1) ∧ active_ s1 = old ∧
     emitted s1 = emitted s) ∧
    (playing_row old s2 = Some (-1) ∧ active_ s2 = id ∧
     emitted s2 = emitted s) ∧
    (playing_row old s3 = Some (-1) ∧ active_ s3 = id ∧
     emitted s3 = emitted s ++ [ActiveChanged (Some id)]).
Proof.
  intros <- Hset Hne Hold [data' Hid]. unfold SetActivePlaylist. step.
  rewrite Hid. simpl.
  rewrite !bool_decide_eq_true_2 by done. simpl.
  repeat (progress (rewrite ?Hold, ?Hid, ?lookup_insert_ne by done; simpl)).
  do 3 eexists. split; [reflexivity|].
  unfold playing_row. simpl. rewrite lookup_insert_eq. done.
Qed.

(** *** The summary *)

Lemma UpdateSummaryText_run r data :
  playlists_ (now r) !! current_ (now r) = Some data →
  UpdateSummaryText r
  = Done (tt, mkRun (set_emitted
                       (emitted (now r)
                          ++ [SummaryTextChanged (summary_text (now r) (p data))])
                       (now r))
                    (past r ++ [now r])).
Proof.
  intros Hcur. unfold UpdateSummaryText. step.
  repeat (progress (rewrite ?Hcur; simpl)).
  rewrite counters_of_selection.
  unfold summary_text, render, summary_duration, tr.
  case_bool_decide; simpl.
  - do 4 f_equal.
    case_bool_decide; case_bool_decide;
      rewrite ?append_nil_l, ?append_nil_r, ?append_assoc; done.
  - repeat (progress (rewrite ?Hcur; simpl)).
    do 4 f_equal.
    case_bool_decide; case_bool_decide;
      rewrite ?append_nil_l, ?append_nil_r, ?append_assoc; done.
Qed.

(** C5: with [T] the row count of the current collection,
    [UpdateSummaryText] emits [render count T duration], where [count] is
    the sum of the range lengths, the seconds are summed over the rows of
    positive length only, and [duration] is these seconds when [count > 1]
    and the total duration of the current collection otherwise.  The rows
    of a range are the rows [i] with [top ≤ i ≤ bottom], each once, in
    whatever way [listings] lists them.  By [render] the text has the
    clause "selected of" exactly when [count > 1], the clause
    "- [ <wordy duration> ]" exactly when [duration] is not zero, and reads
    "1 track" exactly when [T = 1].  The counters are an [int] and a
    [quint64]: the sums are assumed to fit. *)
Theorem UpdateSummaryText_renders s data listings :
  playlists_ s !! current_ s = Some data →
  Forall2 lists_rows (current_selection_ s) listings →
  - 2 ^ 31 ≤ selectedCount (current_selection_ s) < 2 ^ 31 →
  0 ≤ listedSeconds (current_selection_ s) listings < 2 ^ 64 →
  let count := selectedCount (current_selection_ s) in
  let seconds := listedSeconds (current_selection_ s) listings in
  let T := Playlist.rowCount (p data) in
  let duration := summary_duration count seconds (p data) in
  exec UpdateSummaryText s
  = Done (set_emitted
            (emitted s ++ [SummaryTextChanged (render count T duration)]) s).
Proof.
  intros Hcur Hrows Hcount Hseconds. simpl.
  rewrite (listedSeconds_selected _ _ Hrows) in *.
  unfold exec. rewrite (UpdateSummaryText_run (mkRun s []) data Hcur). simpl.
  unfold summary_text. by rewrite int_small, quint64_small.
Qed.

(** *** Loading a file *)

(** C6: when the parser finds no song in the file, [Load] only emits
    [Error] with a message containing the base name of the file: every
    field of the manager but [emitted] is as before, so no playlist is
    created.  When it finds songs, [Load] is [New] on the base name and
    those songs. *)
Theorem Load_empty_or_New s filename :
  (PlaylistParser.Load filename = [] →
   ∃ before after,
     exec (Load filename) s
     = Done (set_emitted
               (emitted s
                  ++ [Error (before +:+ QFileInfo.baseName filename +:+ after)])
               s)) ∧
  (PlaylistParser.Load filename ≠ [] →
   Load filename
   = New (QFileInfo.baseName filename) (PlaylistParser.Load filename)).
Proof.
  split; intros Hsongs; unfold Load.
  - rewrite Hsongs. step.
    destruct (completeBaseName_extends filename) as [rest ->].
    exists "The playlist '", (rest +:+ "' was empty or could not be loaded.").
    do 3 f_equal. by rewrite append_assoc.
  - by destruct (PlaylistParser.Load filename).
Qed.

(** *** The catalog sync *)

Lemma set_playlists_same s : set_playlists_ (playlists_ s) s = s.
Proof. by destruct s. Qed.

Lemma SongsDiscovered_run songs r :
  ∃ visited,
    SongsDiscovered songs r
    = Done (tt, mkRun (set_playlists_
                         (songs_discovered songs <$> playlists_ (now r))
                         (now r))
                      (past r ++ visited)).
Proof.
  revert r. induction songs as [|song songs IH]; intros r.
  - exists []. unfold SongsDiscovered. simpl. step.
    rewrite (map_fmap_ext _ id) by (intros; apply songs_discovered_nil).
    rewrite map_fmap_id, set_playlists_same, app_nil_r. by destruct r.
  - unfold SongsDiscovered in *. cbn [foreach]. unfold_monad.
    match goal with
    | |- context [foreach songs ?body ?r1] =>
        destruct (IH r1) as [visited Hrun]; rewrite Hrun
    end.
    exists (now r :: visited). simpl.
    rewrite <- map_fmap_compose, <- app_assoc. simpl.
    do 3 f_equal. destruct (now r). unfold set_playlists_. simpl. f_equal.
    apply map_fmap_ext. intros k data _. apply songs_discovered_cons.
Qed.

(** C7: [SongsDiscovered songs] ends normally; in every collection of the
    index each item becomes [discovered songs item], so that an item
    referencing the id of a discovered song carries, afterwards, the
    metadata of the last discovered song with that id (the song itself
    when no two discovered songs share an id); and discovering [songs]
    once more changes nothing. *)
Theorem SongsDiscovered_updates_idempotent s songs :
  ∃ s',
    exec (SongsDiscovered songs) s = Done s' ∧
    (∀ k data,
       playlists_ s !! k = Some data →
       ∃ data',
         playlists_ s' !! k = Some data' ∧
         Playlist.items (p data')
         = discovered songs <$> Playlist.items (p data)) ∧
    (∀ k data i item song,
       playlists_ s !! k = Some data →
       Playlist.items (p data) !! i = Some item →
       song ∈ songs →
       PlaylistItem.references (Song.id song) item = true →
       ∃ data' song',
         playlists_ s' !! k = Some data' ∧
         Playlist.items (p data') !! i
         = Some (PlaylistItem.SetMetadata song' item) ∧
         last_with (Song.id song) songs = Some song' ∧
         (NoDup (Song.id <$> songs) → song' = song)) ∧
    exec (SongsDiscovered songs) s' = Done s'.
Proof.
  unfold exec.
  destruct (SongsDiscovered_run songs (mkRun s [])) as [visited ->].
  eexists. split; [reflexivity|]. simpl.
  assert (∀ k data,
            playlists_ s !! k = Some data →
            (songs_discovered songs <$> playlists_ s) !! k
            = Some (songs_discovered songs data)) as Hentry.
  { intros k data Hk. by rewrite lookup_fmap, Hk. }
  repeat split.
  - intros k data Hk. eexists. split; [by apply Hentry|]. done.
  - intros k data i item song Hk Hi Hsong Href.
    destruct (last_with_is_Some song songs Hsong) as [song' Hlast].
    exists (songs_discovered songs data), song'.
    split; [by apply Hentry|]. split; [|split; [done|]].
    + simpl. rewrite list_lookup_fmap, Hi. simpl. f_equal.
      rewrite discovered_last.
      unfold PlaylistItem.references in Href.
      apply andb_prop in Href as [Hlib Hid]. rewrite Hlib.
      apply bool_decide_eq_true in Hid. by rewrite Hid, Hlast.
    + intros Hnodup. rewrite (last_with_unique song songs) in Hlast by done.
      congruence.
  - match goal with
    | |- context [SongsDiscovered songs ?r1] =>
        destruct (SongsDiscovered_run songs r1) as [visited' ->]
    end.
    simpl. f_equal. destruct s. unfold set_playlists_. simpl. f_equal.
    rewrite <- map_fmap_compose.
    apply map_fmap_ext. intros k data _. apply songs_discovered_idemp.
Qed.

(** *** The cursor setters *)

Lemma SetCurrentPlaylist_run id data r :
  playlists_ (now r) !! id = Some data →
  ∃ visited,
    SetCurrentPlaylist id r
    = Done (tt, mkRun (made_current id data (now r)) (past r ++ visited)).
Proof.
  intros Hid. unfold SetCurrentPlaylist. unfold_monad.
  rewrite Hid. simpl. rewrite Hid. simpl.
  rewrite (UpdateSummaryText_run _ data) by done. simpl.
  eexists [_; _; _]. rewrite <- !app_assoc. simpl.
  reflexivity.
Qed.

Lemma SetActivePlaylist_run id r :
  is_Some (playlists_ (now r) !! id) →
  (active_ (now r) ≠ -1 → active_ (now r) ≠ id →
   is_Some (playlists_ (now r) !! active_ (now r))) →
  ∃ visited,
    SetActivePlaylist id r
    = Done (tt, mkRun (made_active id (now r)) (past r ++ visited)).
Proof.
  intros [data Hid] Hold. unfold SetActivePlaylist, made_active,
    old_active_unset. unfold_monad.
  rewrite Hid. simpl.
  destruct (bool_decide (active_ (now r) ≠ -1)
            && bool_decide (active_ (now r) ≠ id)) eqn:Hcond; simpl.
  - apply andb_prop in Hcond as [Hset%bool_decide_eq_true Hne%bool_decide_eq_true].
    destruct (Hold Hset Hne) as [old Hactive].
    repeat (progress (rewrite ?Hactive, ?Hid, ?lookup_insert_ne by done; simpl)).
    eexists [_; _; _]. by rewrite <- !app_assoc.
  - rewrite Hid. simpl. eexists [_; _]. by rewrite <- !app_assoc.
Qed.

(** *** Registering and creating a playlist *)

Lemma AddPlaylist_run id name r :
  ∃ visited,
    AddPlaylist id name r
    = Done (Some id, mkRun (added id name (now r)) (past r ++ visited)).
Proof.
  unfold AddPlaylist, added. unfold_monad. simpl.
  fold (new_entry id name (now r)).
  set (data := new_entry id name (now r)).
  set (s1 := set_emitted _ _).
  set (r1 := mkRun s1 _).
  assert (playlists_ s1 !! id = Some data) as Hid
    by (subst s1; simpl; apply lookup_insert_eq).
  assert (∃ r2 visited2,
            (if bool_decide (current_ (now r) = -1) then SetCurrentPlaylist id
             else λ r, Done (tt, r)) r1 = Done (tt, r2) ∧
            now r2 = (if bool_decide (current_ (now r) = -1)
                      then made_current id data s1 else s1) ∧
            past r2 = past r ++ visited2 ∧
            playlists_ (now r2) !! id = Some data) as (r2 & visited2 & -> & Hnow2 & Hpast2 & Hid2).
  { case_bool_decide.
    - destruct (SetCurrentPlaylist_run id data r1 Hid) as [visited ->].
      eexists _, _. split; [reflexivity|]. split; [reflexivity|].
      split; [|exact Hid].
      subst r1. simpl. rewrite <- !app_assoc. reflexivity.
    - exists r1. eexists. split; [reflexivity|]. split; [reflexivity|].
      split; [|exact Hid].
      subst r1. simpl. rewrite <- !app_assoc. reflexivity. }
  rewrite <- Hnow2. clear Hnow2.
  destruct (bool_decide (active_ (now r2) = -1)) eqn:Hactive; simpl.
  - apply bool_decide_eq_true in Hactive.
    destruct (SetActivePlaylist_run id r2) as [visited ->]; [by eexists|congruence|].
    eexists. rewrite Hpast2, <- app_assoc. done.
  - eexists. destruct r2 as [s2 past2]. simpl in *. by rewrite Hpast2.
Qed.

Lemma old_active_unset_none id s : active_ s = -1 → old_active_unset id s = s.
Proof.
  intros Hactive. unfold old_active_unset.
  by rewrite (bool_decide_eq_false_2 (active_ s ≠ -1)) by (by intros []).
Qed.

Lemma added_fields id name s :
  playlists_ (added id name s) = <[id := new_entry id name s]> (playlists_ s) ∧
  current_ (added id name s)
  = (if bool_decide (current_ s = -1) then id else current_ s) ∧
  active_ (added id name s)
  = (if bool_decide (active_ s = -1) then id else active_ s) ∧
  playlist_backend_ (added id name s) = playlist_backend_ s ∧
  sequence_ (added id name s) = sequence_ s ∧
  library_backend_ (added id name s) = library_backend_ s ∧
  current_selection_ (added id name s) = current_selection_ s.
Proof.
  unfold added, made_active. simpl.
  destruct (bool_decide (current_ s = -1)); simpl;
    case_bool_decide as Hactive; simpl;
    rewrite ?old_active_unset_none by done; done.
Qed.

Lemma New_run name songs store r :
  playlist_backend_ (now r) = Some store →
  let id := (PlaylistBackend.CreatePlaylist name store).1 in
  let store' := (PlaylistBackend.CreatePlaylist name store).2 in
  (id = -1 →
   New name songs r
   = Aborted FatalError
             (mkRun (set_playlist_backend_ (Some store') (now r))
                    (past r ++ [now r]))) ∧
  (id ≠ -1 →
   current_ (now r) = -1 ∨ is_Some (playlists_ (now r) !! current_ (now r)) →
   ∃ s' visited,
     New name songs r = Done (tt, mkRun s' (past r ++ visited)) ∧
     playlists_ s'
     = <[id := mkData (Playlist.InsertSongs songs
                         (Playlist.set_sequence (sequence_ (now r))
                                                (Playlist.new id)))
                      name]> (playlists_ (now r)) ∧
     current_ s' = id ∧
     active_ s'
     = (if bool_decide (active_ (now r) = -1) then id else active_ (now r)) ∧
     playlist_backend_ s' = Some store').
Proof.
  intros Hstore. simpl. unfold New. unfold_monad. simpl.
  rewrite Hstore.
  destruct (PlaylistBackend.CreatePlaylist name store) as [id store'].
  simpl. split; [intros Hid|intros Hid Hvalid].
  - by rewrite bool_decide_eq_true_2.
  - rewrite bool_decide_eq_false_2 by done.
    match goal with
    | |- context [AddPlaylist id name ?r1] =>
        destruct (AddPlaylist_run id name r1) as [visited ->];
        destruct (added_fields id name (now r1))
          as (Hindex & Hcurrent & Hactive & Hbackend & Hseq & _)
    end.
    simpl in *. rewrite Hindex, lookup_insert_eq. simpl.
    unfold PlaylistChanged_raised. unfold_monad. simpl.
    match goal with
    | |- context [UpdateSummaryText ?r2] =>
        assert (is_Some (playlists_ (now r2) !! current_ (now r2)))
          as [cur Hcur]
    end.
    { simpl. rewrite Hcurrent.
      destruct (bool_decide (current_ (now r) = -1)) eqn:Hunset.
      - rewrite lookup_insert_eq. by eexists.
      - apply bool_decide_eq_false in Hunset.
        destruct Hvalid as [Hvalid|Hvalid]; [done|].
        destruct (decide (current_ (now r) = id)) as [->|Hother].
        + rewrite lookup_insert_eq. by eexists.
        + by rewrite !lookup_insert_ne. }
    rewrite (UpdateSummaryText_run _ cur Hcur). simpl.
    match goal with
    | |- context [SetCurrentPlaylist id ?r2] =>
        destruct (SetCurrentPlaylist_run id
                    (set_p (Playlist.InsertSongs songs
                              (p (new_entry id name (now r))))
                           (new_entry id name (now r))) r2)
          as [visited' ->];
        [simpl; apply lookup_insert_eq|]
    end.
    eexists _, _. split.
    { simpl. rewrite <- !app_assoc. reflexivity. }
    simpl. rewrite insert_insert_eq. done.
Qed.


(** *** What each member function does to the index and the cursors *)

Lemma made_active_fields id s :
  current_ (made_active id s) = current_ s ∧
  active_ (made_active id s) = id ∧
  playlist_backend_ (made_active id s) = playlist_backend_ s ∧
  current_selection_ (made_active id s) = current_selection_ s.
Proof.
  unfold made_active, old_active_unset. simpl.
  destruct (_ && _); [destruct (playlists_ s !! active_ s)|]; done.
Qed.

Lemma made_active_same_ids id s :
  (active_ s ≠ -1 → active_ s ≠ id → is_Some (playlists_ s !! active_ s)) →
  same_ids (playlists_ s) (playlists_ (made_active id s)) ∧
  delete (active_ s) (playlists_ (made_active id s))
  = delete (active_ s) (playlists_ s).
Proof.
  intros Hold. unfold made_active, old_active_unset. simpl.
  destruct (bool_decide (active_ s ≠ -1) && bool_decide (active_ s ≠ id))
    eqn:Hcond; [|done].
  apply andb_prop in Hcond as [Hset%bool_decide_eq_true Hne%bool_decide_eq_true].
  destruct (Hold Hset Hne) as [old Hactive]. rewrite Hactive. simpl.
  split; [by eapply same_ids_insert|]. apply delete_insert_eq.
Qed.

Lemma UpdateSummaryText_effect s s' :
  exec UpdateSummaryText s = Done s' →
  playlists_ s' = playlists_ s ∧ current_ s' = current_ s ∧
  active_ s' = active_ s ∧ playlist_backend_ s' = playlist_backend_ s.
Proof.
  unfold exec. destruct (playlists_ s !! current_ s) as [data|] eqn:Hcur.
  - rewrite (UpdateSummaryText_run (mkRun s []) data Hcur). simpl.
    by intros [= <-].
  - unfold UpdateSummaryText. step. by rewrite Hcur.
Qed.

Lemma SetCurrentPlaylist_effect id s s' :
  exec (SetCurrentPlaylist id) s = Done s' →
  is_Some (playlists_ s !! id) ∧
  playlists_ s' = playlists_ s ∧ current_ s' = id ∧ active_ s' = active_ s ∧
  playlist_backend_ s' = playlist_backend_ s.
Proof.
  unfold exec. destruct (playlists_ s !! id) as [data|] eqn:Hid.
  - destruct (SetCurrentPlaylist_run id data (mkRun s []) Hid) as [visited ->].
    simpl. by intros [= <-].
  - unfold SetCurrentPlaylist. step. by rewrite Hid.
Qed.

Lemma SetActivePlaylist_effect id s s' :
  (active_ s ≠ -1 → active_ s ≠ id → is_Some (playlists_ s !! active_ s)) →
  exec (SetActivePlaylist id) s = Done s' →
  is_Some (playlists_ s !! id) ∧
  same_ids (playlists_ s) (playlists_ s') ∧
  delete (active_ s) (playlists_ s') = delete (active_ s) (playlists_ s) ∧
  current_ s' = current_ s ∧ active_ s' = id ∧
  playlist_backend_ s' = playlist_backend_ s.
Proof.
  intros Hold. unfold exec.
  destruct (playlists_ s !! id) as [data|] eqn:Hid.
  - destruct (SetActivePlaylist_run id (mkRun s [])) as [visited ->];
      [by eexists|done|].
    simpl. intros [= <-].
    destruct (made_active_same_ids id s Hold) as [Hsame Hdelete].
    destruct (made_active_fields id s) as (? & ? & ? & _).
    split; [by eexists|done].
  - unfold SetActivePlaylist. step. by rewrite Hid.
Qed.

Lemma Rename_effect id new_name s s' :
  exec (Rename id new_name) s = Done s' →
  same_ids (playlists_ s) (playlists_ s') ∧
  current_ s' = current_ s ∧ active_ s' = active_ s.
Proof.
  unfold exec, Rename. step.
  destruct (playlists_ s !! id); simpl; [|done].
  destruct (playlist_backend_ s); simpl; [|done].
  intros [= <-]. simpl. split; [|done]. by apply same_ids_alter.
Qed.

Lemma ChangePlaylistOrder_effect ids s s' :
  exec (ChangePlaylistOrder ids) s = Done s' →
  playlists_ s' = playlists_ s ∧
  current_ s' = current_ s ∧ active_ s' = active_ s.
Proof.
  unfold exec, ChangePlaylistOrder. step.
  destruct (playlist_backend_ s); simpl; [|done]. by intros [= <-].
Qed.

Lemma SelectionChanged_effect selection s s' :
  exec (SelectionChanged selection) s = Done s' →
  playlists_ s' = playlists_ s ∧
  current_ s' = current_ s ∧ active_ s' = active_ s.
Proof.
  unfold exec, SelectionChanged. unfold_monad.
  destruct (playlists_ s !! current_ s) as [data|] eqn:Hcur.
  - rewrite (UpdateSummaryText_run _ data) by done. simpl. by intros [= <-].
  - unfold UpdateSummaryText. step. by rewrite Hcur.
Qed.

Lemma SongsDiscovered_effect songs s s' :
  exec (SongsDiscovered songs) s = Done s' →
  same_ids (playlists_ s) (playlists_ s') ∧
  current_ s' = current_ s ∧ active_ s' = active_ s.
Proof.
  unfold exec.
  destruct (SongsDiscovered_run songs (mkRun s [])) as [visited ->].
  simpl. intros [= <-]. simpl. split; [|done].
  apply same_ids_fmap, songs_discovered_id.
Qed.

Lemma exec_AddPlaylist id name s :
  exec (AddPlaylist id name) s = Done (added id name s).
Proof.
  unfold exec. by destruct (AddPlaylist_run id name (mkRun s [])) as [visited ->].
Qed.

Lemma keyed_insert id data s s' :
  keyed s → Playlist.id (p data) = id →
  playlists_ s' = <[id := data]> (playlists_ s) → keyed s'.
Proof.
  intros Hkeyed Hid Hindex k data' Hk. rewrite Hindex in Hk.
  destruct (decide (id = k)) as [<-|Hne].
  - rewrite lookup_insert_eq in Hk. by injection Hk as <-.
  - rewrite lookup_insert_ne in Hk by done. by eapply Hkeyed.
Qed.

(** After an insertion at [id], a cursor that has moved to [id] or has
    stayed on a key is on a key. *)
Lemma cursor_after_insert id data (m : gmap Z Data) cursor (unset : bool) :
  (unset = false → is_Some (m !! cursor)) →
  is_Some (<[id := data]> m !! (if unset then id else cursor)).
Proof.
  intros Hcursor. destruct unset.
  - rewrite lookup_insert_eq. by eexists.
  - by apply is_Some_lookup_insert, Hcursor.
Qed.

Lemma added_well_formed id name s :
  fresh_or_valid s → keyed s → well_formed (added id name s).
Proof.
  intros Hfresh Hkeyed.
  destruct (added_fields id name s) as (Hindex & Hcurrent & Hactive & _).
  split; [split; [|split]|].
  - rewrite Hindex. apply insert_non_empty.
  - rewrite Hindex, Hcurrent. apply cursor_after_insert.
    intros Hset%bool_decide_eq_false.
    destruct Hfresh as [(_ & ? & _)|(_ & ? & _)]; done.
  - rewrite Hindex, Hactive. apply cursor_after_insert.
    intros Hset%bool_decide_eq_false.
    destruct Hfresh as [(_ & _ & ?)|(_ & _ & ?)]; done.
  - apply (keyed_insert id (new_entry id name s) s); done.
Qed.

Lemma New_run_well_formed name songs store r :
  playlist_backend_ (now r) = Some store →
  fresh_or_valid (now r) → keyed (now r) →
  (∃ r', New name songs r = Aborted FatalError r') ∨
  ∃ r', New name songs r = Done (tt, r') ∧ well_formed (now r').
Proof.
  intros Hstore Hfresh Hkeyed.
  destruct (New_run name songs store r Hstore) as [Hdies Hdone].
  destruct (decide ((PlaylistBackend.CreatePlaylist name store).1 = -1))
    as [Hid|Hid]; [left; eexists; by apply Hdies|right].
  destruct (Hdone Hid)
    as (s' & visited & -> & Hindex & Hcurrent & Hactive & _).
  { destruct Hfresh as [(_ & ? & _)|(_ & ? & _)]; [by left|by right]. }
  eexists. split; [done|]. simpl.
  split; [split; [|split]|].
  - rewrite Hindex. apply insert_non_empty.
  - rewrite Hindex, Hcurrent, lookup_insert_eq. by eexists.
  - rewrite Hindex, Hactive. apply cursor_after_insert.
    intros Hset%bool_decide_eq_false.
    destruct Hfresh as [(_ & _ & ?)|(_ & _ & ?)]; done.
  - eapply (keyed_insert _ _ (now r)); [done| |exact Hindex]. done.
Qed.

Lemma New_not_NullPointer name songs r :
  is_Some (playlist_backend_ (now r))
  ∨ New name songs r = Aborted NullPointer r.
Proof.
  destruct (playlist_backend_ (now r)) eqn:Hstore; [left; by eexists|right].
  unfold New. step. by rewrite Hstore.
Qed.

(** *** Starting the manager *)

Lemma foreach_AddPlaylist_run (rows : list PlaylistBackend.Playlist) r :
  fresh_or_valid (now r) → keyed (now r) →
  ∃ r',
    foreach rows (λ row, AddPlaylist (PlaylistBackend.id row)
                                     (PlaylistBackend.name row);; mret tt) r
    = Done (tt, r') ∧
    fresh_or_valid (now r') ∧ keyed (now r') ∧
    playlist_backend_ (now r') = playlist_backend_ (now r).
Proof.
  revert r. induction rows as [|row rows IH]; intros r Hfresh Hkeyed.
  - exists r. done.
  - cbn [foreach]. unfold_monad.
    destruct (AddPlaylist_run (PlaylistBackend.id row)
                (PlaylistBackend.name row) r) as [visited ->].
    destruct (added_well_formed (PlaylistBackend.id row)
                (PlaylistBackend.name row) (now r) Hfresh Hkeyed)
      as [Hvalid Hkeyed1].
    destruct (added_fields (PlaylistBackend.id row)
                (PlaylistBackend.name row) (now r))
      as (_ & _ & _ & Hbackend & _).
    match goal with
    | |- context [foreach rows ?body ?r1] =>
        destruct (IH r1) as (r' & -> & Hfresh' & Hkeyed' & Hbackend');
        [by right|done|]
    end.
    exists r'. simpl in Hbackend'. by rewrite Hbackend', Hbackend.
Qed.

(** [Init] dies when the store cannot allocate the default playlist, and
    ends normally with valid cursors otherwise. *)
Lemma Init_run library_backend store sequence r :
  fresh_or_valid (now r) → keyed (now r) →
  (∃ r', Init library_backend store sequence r = Aborted FatalError r') ∨
  ∃ r', Init library_backend store sequence r = Done (tt, r') ∧
        well_formed (now r').
Proof.
  intros Hfresh Hkeyed. pose proof foreach_AddPlaylist_run as Hloop.
  unfold Init. step.
  match goal with
  | |- context [foreach _ ?body ?r0] =>
      destruct (Hloop (PlaylistBackend.GetAllPlaylists store) r0)
        as (r' & -> & Hfresh' & Hkeyed' & Hbackend'); [done|done|]
  end.
  simpl in Hbackend'. case_bool_decide as Hempty.
  - by apply (New_run_well_formed _ _ store).
  - right. exists r'. split; [done|]. split; [|done].
    by destruct Hfresh' as [(? & _)|?].
Qed.

Lemma constructed_fresh :
  fresh_or_valid (constructed (B:=B)) ∧ keyed (constructed (B:=B)).
Proof.
  split; [by left|]. intros k data Hk.
  change ((∅ : gmap Z Data) !! k = Some data) in Hk.
  by rewrite lookup_empty in Hk.
Qed.

Lemma Init_well_formed library_backend store sequence s :
  exec (Init library_backend store sequence) constructed = Done s →
  well_formed s.
Proof.
  unfold exec. destruct constructed_fresh as [Hfresh Hkeyed].
  destruct (Init_run library_backend store sequence (mkRun constructed [])
              Hfresh Hkeyed) as [[r' ->]|(r' & -> & Hwf)]; [done|].
  by intros [= <-].
Qed.

(** *** Removing a playlist *)

(** What [Remove] does when the index holds more than one playlist:
    [next_id] is the id of the first playlist of the index, whichever
    playlist is removed. *)
Lemma Remove_run id store first s :
  playlist_backend_ s = Some store →
  is_Some (playlists_ s !! id) →
  ¬ (size (playlists_ s) ≤ 1)%nat →
  constBegin (playlists_ s) = Some first →
  is_Some (playlists_ s !! Playlist.id (p first.2)) →
  ∃ s',
    exec (Remove id) s = Done s' ∧
    playlists_ s' = delete id (playlists_ s) ∧
    active_ s' = (if bool_decide (id = active_ s)
                  then Playlist.id (p first.2) else active_ s) ∧
    current_ s' = (if bool_decide (id = current_ s)
                   then Playlist.id (p first.2) else current_ s) ∧
    playlist_backend_ s' = Some (PlaylistBackend.RemovePlaylist id store).
Proof.
  intros Hstore [data Hid] Hsize Hfirst Hnext.
  set (next_id := Playlist.id (p first.2)) in *.
  unfold exec, Remove. step. rewrite Hid. simpl.
  rewrite bool_decide_eq_false_2 by done. simpl. rewrite Hstore. simpl.
  rewrite Hfirst. simpl. fold next_id.
  set (s1 := set_playlist_backend_ _ s).
  set (r1 := mkRun s1 _).
  assert (∃ r2,
            (if bool_decide (id = active_ s) then SetActivePlaylist next_id
             else λ r, Done (tt, r)) r1 = Done (tt, r2) ∧
            active_ (now r2)
            = (if bool_decide (id = active_ s) then next_id else active_ s) ∧
            current_ (now r2) = current_ s ∧
            playlist_backend_ (now r2) = playlist_backend_ s1 ∧
            delete id (playlists_ (now r2)) = delete id (playlists_ s) ∧
            is_Some (playlists_ (now r2) !! next_id))
    as (r2 & -> & Hactive2 & Hcurrent2 & Hbackend2 & Hdelete2 & Hnext2).
  { case_bool_decide as Hactive.
    - assert (active_ s1 ≠ -1 → active_ s1 ≠ next_id →
              is_Some (playlists_ s1 !! active_ s1)) as Hold.
      { intros _ _. simpl. rewrite <- Hactive, Hid. by eexists. }
      destruct (SetActivePlaylist_run next_id r1 Hnext Hold) as [visited ->].
      destruct (made_active_fields next_id s1) as (? & ? & ? & _).
      destruct (made_active_same_ids next_id s1 Hold) as [Hsame Hdelete].
      eexists. split; [reflexivity|]. simpl.
      repeat split; try done.
      + simpl in Hdelete. by rewrite Hactive.
      + by apply (same_ids_is_Some _ _ _ Hsame).
    - exists r1. done. }
  simpl. rewrite Hcurrent2.
  destruct Hnext2 as [next Hnext2].
  assert (∃ r3,
            (if bool_decide (id = current_ s) then SetCurrentPlaylist next_id
             else λ r, Done (tt, r)) r2 = Done (tt, r3) ∧
            active_ (now r3) = active_ (now r2) ∧
            current_ (now r3)
            = (if bool_decide (id = current_ s) then next_id else current_ s) ∧
            playlist_backend_ (now r3) = playlist_backend_ (now r2) ∧
            playlists_ (now r3) = playlists_ (now r2))
    as (r3 & -> & Hactive3 & Hcurrent3 & Hbackend3 & Hindex3).
  { clear Hactive2. destruct (bool_decide (id = current_ s)); simpl.
    - destruct (SetCurrentPlaylist_run next_id next r2 Hnext2) as [visited ->].
      eexists. split; [reflexivity|]. done.
    - exists r2. done. }
  simpl. eexists. split; [reflexivity|]. simpl.
  rewrite Hindex3, Hdelete2, Hactive3, Hactive2, Hcurrent3, Hbackend3, Hbackend2.
  done.
Qed.

Lemma Remove_aborts id s :
  playlists_ s !! id = None → exec (Remove id) s = Aborted AssertionFailed s.
Proof. intros Hid. unfold exec, Remove. step. by rewrite Hid. Qed.

Lemma Remove_refuses id s :
  is_Some (playlists_ s !! id) → (size (playlists_ s) ≤ 1)%nat →
  exec (Remove id) s = Done s.
Proof.
  intros [data Hid] Hsize. unfold exec, Remove. step. rewrite Hid. simpl.
  by rewrite bool_decide_eq_true_2.
Qed.

Lemma Remove_needs_store id s :
  is_Some (playlists_ s !! id) → ¬ (size (playlists_ s) ≤ 1)%nat →
  playlist_backend_ s = None → exec (Remove id) s = Aborted NullPointer s.
Proof.
  intros [data Hid] Hsize Hstore. unfold exec, Remove. step.
  rewrite Hid. simpl. rewrite bool_decide_eq_false_2 by done. simpl.
  by rewrite Hstore.
Qed.

(** After the removal of [id], a cursor that has moved from [id] to
    another key [k0], or has stayed on a key that is not [id], is on a
    key. *)
Lemma cursor_after_delete (m : gmap Z Data) id k0 cursor first data :
  m !! k0 = Some first → m !! cursor = Some data →
  (k0 = id → id ≠ cursor) →
  is_Some (delete id m !! (if bool_decide (id = cursor) then k0 else cursor)).
Proof.
  intros Hk0 Hcursor Hspares. case_bool_decide as Hcase.
  - rewrite lookup_delete_ne.
    + rewrite Hk0. by eexists.
    + intros Heq. symmetry in Heq. by apply Hspares in Heq.
  - rewrite lookup_delete_ne by done. rewrite Hcursor. by eexists.
Qed.

(** [Remove] keeps the cursors valid unless it removes the first entry of
    the index while a cursor is on it. *)
Lemma Remove_well_formed id s s' :
  well_formed s → spares_first s (OpRemove id) →
  exec (Remove id) s = Done s' → well_formed s'.
Proof.
  intros Hwf Hspares Hrun.
  destruct (playlists_ s !! id) as [data|] eqn:Hid;
    [|by rewrite Remove_aborts in Hrun].
  destruct (decide (size (playlists_ s) ≤ 1)%nat) as [Hsize|Hsize].
  { rewrite Remove_refuses in Hrun by (by eexists || done).
    by injection Hrun as <-. }
  destruct (playlist_backend_ s) as [store|] eqn:Hstore;
    [|by rewrite Remove_needs_store in Hrun by (by eexists || done)].
  destruct (constBegin_is_Some (playlists_ s)) as [[k0 first] Hfirst];
    [by apply size_above_1_non_empty|].
  destruct (constBegin_Some _ _ _ Hfirst) as [Hk0 _].
  destruct Hwf as [(_ & [current Hcurrent] & [active Hactive]) Hkeyed].
  pose proof (Hkeyed _ _ Hk0) as Hnext.
  destruct (Remove_run id store (k0, first) s)
    as (s'' & Hrun' & Hindex & Hactive' & Hcurrent' & _);
    [done|by eexists|done|done|simpl; rewrite Hnext; by eexists|].
  rewrite Hrun' in Hrun. injection Hrun as ->.
  simpl in *. rewrite Hnext in *.
  specialize (Hspares (k0, first) Hfirst). simpl in Hspares.
  assert (is_Some (playlists_ s' !! current_ s')) as Hcur.
  { rewrite Hindex, Hcurrent'. eapply cursor_after_delete; [done..|].
    intros Heq. by destruct (Hspares Heq). }
  assert (is_Some (playlists_ s' !! active_ s')) as Hact.
  { rewrite Hindex, Hactive'. eapply cursor_after_delete; [done..|].
    intros Heq. by destruct (Hspares Heq). }
  split; [split; [by eapply lookup_is_Some_non_empty|done]|].
  intros k data' Hk. rewrite Hindex in Hk.
  apply lookup_delete_Some in Hk as [_ Hk]. by eapply Hkeyed.
Qed.

Lemma cursor_stays (id cursor : Z) :
  (if bool_decide (id = cursor) then id else cursor) = cursor.
Proof. by case_bool_decide. Qed.

(** X9: removing the first playlist of an index of several leaves on it
    every cursor that was on it, although the index has it no more. *)
Lemma Remove_first_dangles id first store s :
  well_formed s →
  playlist_backend_ s = Some store →
  ¬ (size (playlists_ s) ≤ 1)%nat →
  constBegin (playlists_ s) = Some (id, first) →
  ∃ s',
    exec (Remove id) s = Done s' ∧
    playlists_ s' !! id = None ∧
    active_ s' = active_ s ∧
    current_ s' = current_ s.
Proof.
  intros [_ Hkeyed] Hstore Hsize Hfirst.
  destruct (constBegin_Some _ _ _ Hfirst) as [Hid _].
  pose proof (Hkeyed _ _ Hid) as Hnext.
  destruct (Remove_run id store (id, first) s)
    as (s' & Hrun & Hindex & Hactive & Hcurrent & _);
    [done|by eexists|done|done|simpl; rewrite Hnext; by eexists|].
  simpl in *. rewrite Hnext in *.
  rewrite cursor_stays in Hactive, Hcurrent.
  exists s'. split; [done|]. split; [by rewrite Hindex, lookup_delete_eq|].
  done.
Qed.

(** *** Every operation, and every reachable state *)

Lemma Load_well_formed filename s s' :
  well_formed s → exec (Load filename) s = Done s' → well_formed s'.
Proof.
  intros Hwf. unfold Load, exec.
  destruct (PlaylistParser.Load filename) as [|song songs] eqn:Hsongs.
  - step. by intros [= <-].
  - destruct (New_not_NullPointer (QFileInfo.baseName filename)
                (song :: songs) (mkRun s [])) as [[store Hstore]| ->]; [|done].
    destruct (New_run_well_formed (QFileInfo.baseName filename)
                (song :: songs) store (mkRun s []) Hstore)
      as [[r' ->]|(r' & -> & Hwf')]; [by right; apply Hwf|apply Hwf|done|].
    by intros [= <-].
Qed.

Lemma perform_well_formed op s s' :
  well_formed s → spares_first s op →
  exec (perform op) s = Done s' → well_formed s'.
Proof.
  intros Hwf Hspares Hrun.
  pose proof Hwf as [(_ & Hcurrent & Hactive) Hkeyed].
  destruct op as [id name|name songs|id new_name|id|id|id|ids|selection
                 |songs|filename|]; simpl in Hrun.
  - assert (s' = added id name s) as ->.
    { pose proof (exec_AddPlaylist id name s) as Hadd.
      unfold exec in *. unfold_monad.
      destruct (AddPlaylist id name _) as [[ptr r']|]; by simplify_eq. }
    apply added_well_formed; [by right; apply Hwf|done].
  - unfold exec in Hrun.
    destruct (New_not_NullPointer name songs (mkRun s []))
      as [[store Hstore]|Hnull]; [|by rewrite Hnull in Hrun].
    destruct (New_run_well_formed name songs store (mkRun s []) Hstore)
      as [[r' Hdies]|(r' & Hdone & Hwf')]; [by right; apply Hwf|done| |].
    + by rewrite Hdies in Hrun.
    + rewrite Hdone in Hrun. by injection Hrun as <-.
  - apply Rename_effect in Hrun as (Hsame & Hcur & Hact).
    apply (well_formed_same_ids s); [done|done| |].
    + rewrite Hcur. by eapply same_ids_is_Some.
    + rewrite Hact. by eapply same_ids_is_Some.
  - by eapply Remove_well_formed.
  - apply SetCurrentPlaylist_effect in Hrun as (Hid & Hindex & Hcur & Hact & _).
    apply (well_formed_same_ids s); [done|by rewrite Hindex| |].
    + by rewrite Hindex, Hcur.
    + by rewrite Hindex, Hact.
  - apply SetActivePlaylist_effect in Hrun
      as (Hid & Hsame & _ & Hcur & Hact & _); [|done].
    apply (well_formed_same_ids s); [done|done| |].
    + rewrite Hcur. by eapply same_ids_is_Some.
    + rewrite Hact. by eapply same_ids_is_Some.
  - apply ChangePlaylistOrder_effect in Hrun as (Hindex & Hcur & Hact).
    apply (well_formed_same_ids s); [done|by rewrite Hindex| |].
    + by rewrite Hindex, Hcur.
    + by rewrite Hindex, Hact.
  - apply SelectionChanged_effect in Hrun as (Hindex & Hcur & Hact).
    apply (well_formed_same_ids s); [done|by rewrite Hindex| |].
    + by rewrite Hindex, Hcur.
    + by rewrite Hindex, Hact.
  - apply SongsDiscovered_effect in Hrun as (Hsame & Hcur & Hact).
    apply (well_formed_same_ids s); [done|done| |].
    + rewrite Hcur. by eapply same_ids_is_Some.
    + rewrite Hact. by eapply same_ids_is_Some.
  - by eapply Load_well_formed.
  - apply UpdateSummaryText_effect in Hrun as (Hindex & Hcur & Hact & _).
    apply (well_formed_same_ids s); [done|by rewrite Hindex| |].
    + by rewrite Hindex, Hcur.
    + by rewrite Hindex, Hact.
Qed.

(** X14: after [Init], and as long as every operation is called with an
    id of the index where it asserts one, and no cursor is on the first
    entry of the index when that entry is removed, the index holds a
    playlist, both cursors are keys of it, and every playlist is bound to
    the id it is filed under. *)
Lemma reachable_well_formed s : reachable_by admitted s → well_formed s.
Proof.
  induction 1
    as [library_backend store sequence s Hinit|s op s' _ IH [_ Hop] Hrun].
  - by eapply Init_well_formed.
  - by eapply perform_well_formed.
Qed.

End Properties.

(** ** The manager on the sample store *)

(** C1: the invariant, that the index holds a playlist and both cursors are
    keys of it, does not survive every operation.  [Init] on a store with
    the playlists 1 and 2 ends in [manager12], where it holds; [Remove 1]
    then ends in [manager12_without_1], a reachable state, where both
    cursors are still 1 and the index holds playlist 2 only. *)
Theorem Remove_first_breaks_valid_cursors :
  reachable_by (λ _ _, True) Sample.manager12 ∧
  valid_cursors Sample.manager12 ∧
  exec (Remove 1) Sample.manager12 = Done Sample.manager12_without_1 ∧
  reachable_by (λ _ _, True) Sample.manager12_without_1 ∧
  ¬ valid_cursors Sample.manager12_without_1.
Proof.
  assert (exec (Remove 1) Sample.manager12 = Done Sample.manager12_without_1)
    as Hremove by (vm_compute; reflexivity).
  assert (reachable_by (λ _ _, True) Sample.manager12) as Hreachable.
  { eapply reachable_Init. apply started_on_store12. }
  split; [done|]. split.
  - split; [|split]; vm_compute; [discriminate|by eexists..].
  - split; [done|]. split.
    + by apply (reachable_step _ Sample.manager12 (OpRemove 1)).
    + intros (_ & [data Hcurrent] & _). vm_compute in Hcurrent. discriminate.
Qed.

(** C2: in [manager12] the index holds two playlists and playlist 1 is both
    active and current; after [Remove 1] both cursors are still 1, the id
    just removed, which the index has no more. *)
Theorem Remove_active_first_keeps_cursor :
  size (playlists_ Sample.manager12) = 2%nat ∧
  active_ Sample.manager12 = 1 ∧
  current_ Sample.manager12 = 1 ∧
  ∃ s',
    exec (Remove 1) Sample.manager12 = Done s' ∧
    active_ s' = 1 ∧
    current_ s' = 1 ∧
    playlists_ s' !! 1 = None ∧
    is_Some (playlists_ s' !! 2).
Proof.
  split; [by vm_compute|]. split; [done|]. split; [done|].
  exists Sample.manager12_without_1.
  split; [vm_compute; reflexivity|]. split; [done|]. split; [done|].
  split; [by vm_compute|]. vm_compute. by eexists.
Qed.

(** [Remove 2] on the same state moves no cursor and keeps them valid. *)
Example Remove_second_keeps_cursors :
  ∃ s', exec (Remove 2) Sample.manager12 = Done s' ∧ valid_cursors s' ∧
        active_ s' = 1 ∧ current_ s' = 1.
Proof.
  eexists. split; [vm_compute; reflexivity|].
  split; [|done]. split; [|split]; vm_compute; [discriminate|by eexists..].
Qed.

(** The sole playlist of [manager1] is not removed. *)
Lemma Remove_last_is_noop_witness :
  run (Remove 1) Sample.manager1 = Done (tt, [Sample.manager1]) ∧
  exec (Remove 1) Sample.manager1 = Done Sample.manager1.
Proof.
  apply (Remove_last_is_noop Sample.manager1 1).
  - vm_compute. reflexivity.
  - vm_compute. eexists. reflexivity.
Defined.

(** The order 2, 1 is handed to the sample store. *)
Lemma ChangePlaylistOrder_forwards_only_witness :
  ∃ s',
    exec (ChangePlaylistOrder [2; 1]) Sample.manager12 = Done s' ∧
    playlist_backend_ s'
    = Some (PlaylistBackend.SetPlaylistOrder [2; 1] Sample.store12) ∧
    playlists_ s' = playlists_ Sample.manager12 ∧
    current_ s' = current_ Sample.manager12 ∧
    active_ s' = active_ Sample.manager12 ∧
    current_selection_ s' = current_selection_ Sample.manager12 ∧
    emitted s' = emitted Sample.manager12.
Proof.
  apply (ChangePlaylistOrder_forwards_only Sample.manager12 Sample.store12 [2; 1]).
  reflexivity.
Defined.

(** Playlist 1 of [manager5] is active and plays its row 2; making it
    active again leaves the marker on row 2. *)
Lemma SetActivePlaylist_same_keeps_marker_witness :
  ∃ s' visited,
    run (SetActivePlaylist 1) Sample.manager5 = Done (tt, visited) ∧
    Forall (λ st, playlists_ st = playlists_ Sample.manager5) visited ∧
    last visited = Some s' ∧
    exec (SetActivePlaylist 1) Sample.manager5 = Done s' ∧
    playing_row 1 s' = playing_row 1 Sample.manager5 ∧
    active_ s' = 1 ∧
    emitted s' = emitted Sample.manager5 ++ [ActiveChanged (Some 1)].
Proof.
  apply (SetActivePlaylist_same_keeps_marker Sample.manager5 1).
  - reflexivity.
  - vm_compute. eexists. reflexivity.
Defined.

(** Making playlist 2 active unsets the marker of playlist 1 first. *)
Lemma SetActivePlaylist_unsets_marker_first_witness :
  ∃ s1 s2 s3,
    run (SetActivePlaylist 2) Sample.manager5
    = Done (tt, [Sample.manager5; s1; s2; s3]) ∧
    (playing_row 1 s1 = Some (-1) ∧ active_ s1 = 1 ∧
     emitted s1 = emitted Sample.manager5) ∧
    (playing_row 1 s2 = Some (-1) ∧ active_ s2 = 2 ∧
     emitted s2 = emitted Sample.manager5) ∧
    (playing_row 1 s3 = Some (-1) ∧ active_ s3 = 2 ∧
     emitted s3 = emitted Sample.manager5 ++ [ActiveChanged (Some 2)]).
Proof.
  apply (SetActivePlaylist_unsets_marker_first Sample.manager5 2 1
           (Sample.playlist_of 1 "One" Sample.five_items 2)).
  - reflexivity.
  - lia.
  - lia.
  - vm_compute. reflexivity.
  - vm_compute. eexists. reflexivity.
Defined.

(** Three rows of 40, 0 and 65 seconds selected out of five. *)
Lemma UpdateSummaryText_renders_witness :
  exec UpdateSummaryText Sample.manager5
  = Done (set_emitted
            (emitted Sample.manager5
               ++ [SummaryTextChanged "3 selected of 5 tracks - [ 1:45 ]"])
            Sample.manager5).
Proof.
  assert (Forall2 lists_rows (current_selection_ Sample.manager5) [[0; 1; 2]])
    as Hrows.
  { constructor; [|constructor]. split.
    - apply NoDup_cons_2; [rewrite !elem_of_cons, elem_of_nil; lia|].
      apply NoDup_cons_2; [rewrite !elem_of_cons, elem_of_nil; lia|].
      apply NoDup_singleton.
    - intros i. rewrite !elem_of_cons, elem_of_nil. simpl. lia. }
  etransitivity.
  - apply (UpdateSummaryText_renders Sample.manager5
             (Sample.playlist_of 1 "One" Sample.five_items 2) [[0; 1; 2]]).
    + vm_compute. reflexivity.
    + exact Hrows.
    + vm_compute. split; [discriminate|reflexivity].
    + vm_compute. split; [discriminate|reflexivity].
  - vm_compute. reflexivity.
Defined.

Example summary_of_selection :
  render (selectedCount (current_selection_ Sample.manager5)) 5
         (selectedSeconds (current_selection_ Sample.manager5))
  = "3 selected of 5 tracks - [ 1:45 ]".
Proof. vm_compute. reflexivity. Qed.

Example summary_of_five_tracks :
  exec UpdateSummaryText (set_current_selection_ [] Sample.manager5)
  = Done (set_emitted [SummaryTextChanged "5 tracks - [ 3:05 ]"]
            (set_current_selection_ [] Sample.manager5)).
Proof. vm_compute. reflexivity. Qed.

Example summary_of_one_track :
  render 0 1 0 = "1 track".
Proof. vm_compute. reflexivity. Qed.

(** A file without songs, and a file with two. *)
Lemma Load_empty_or_New_witness :
  (∃ before after,
     exec (Load "/music/none.tar.m3u") Sample.manager12
     = Done (set_emitted
               (emitted Sample.manager12
                  ++ [Error (before +:+ QFileInfo.baseName "/music/none.tar.m3u"
                                    +:+ after)])
               Sample.manager12)) ∧
  Load (B:=Sample.Store) "/music/mix.m3u"
  = New (QFileInfo.baseName "/music/mix.m3u")
        (PlaylistParser.Load "/music/mix.m3u").
Proof.
  split.
  - apply (proj1 (Load_empty_or_New Sample.manager12 "/music/none.tar.m3u")).
    vm_compute. reflexivity.
  - apply (proj2 (Load_empty_or_New Sample.manager12 "/music/mix.m3u")).
    vm_compute. discriminate.
Defined.

Example Load_none_message :
  exec (Load "/music/none.tar.m3u") Sample.manager1
  = Done (set_emitted
            [Error "The playlist 'none.tar' was empty or could not be loaded."]
            Sample.manager1).
Proof. vm_compute. reflexivity. Qed.


(** With the current cursor on an id the index has no more, [New] stops
    at a null pointer in the slot of [PlaylistChanged], after the new
    playlist has been registered and before the cursor is moved. *)
Example New_with_dangling_cursor :
  ∃ stopped,
    exec (New "Mix" Sample.two_songs) Sample.manager12_without_1
    = Aborted NullPointer stopped ∧
    is_Some (playlists_ stopped !! 3) ∧
    current_ stopped = 1 ∧
    playlists_ stopped !! 1 = None.
Proof.
  eexists. split; [vm_compute; reflexivity|].
  split; [vm_compute; by eexists|]. split; [reflexivity|].
  vm_compute. reflexivity.
Qed.

Example New_on_store12 :
  ∃ s', exec (New "Mix" Sample.two_songs) Sample.manager12 = Done s' ∧
        current_ s' = 3 ∧ active_ s' = 1 ∧
        Playlist.items ∘ p <$> playlists_ s' !! 3
        = Some (PlaylistItem.mk false <$> Sample.two_songs).
Proof. eexists. split; [vm_compute; reflexivity|]. by vm_compute. Qed.

(** Song 7 is found again: the first item of playlist 1 takes its new
    metadata, and a second discovery changes nothing. *)
Lemma SongsDiscovered_updates_idempotent_witness :
  ∃ s',
    exec (SongsDiscovered [Sample.rediscovered]) Sample.manager5 = Done s' ∧
    (∃ data',
       playlists_ s' !! 1 = Some data' ∧
       Playlist.items (p data') !! 0%nat
       = Some (PlaylistItem.mk true Sample.rediscovered)) ∧
    exec (SongsDiscovered [Sample.rediscovered]) s' = Done s'.
Proof.
  destruct (SongsDiscovered_updates_idempotent Sample.manager5
              [Sample.rediscovered]) as (s' & Hrun & _ & Hitem & Hagain).
  exists s'. split; [exact Hrun|]. split; [|exact Hagain].
  destruct (Hitem 1 (Sample.playlist_of 1 "One" Sample.five_items 2) 0%nat
              (PlaylistItem.mk true (Song.mk 7 "Intro" 40)) Sample.rediscovered)
    as (data' & song' & Hdata' & Hitem' & _ & Hsong').
  - vm_compute. reflexivity.
  - reflexivity.
  - apply list_elem_of_singleton. reflexivity.
  - vm_compute. reflexivity.
  - exists data'. split; [exact Hdata'|].
    rewrite Hitem'. rewrite Hsong'; [reflexivity|].
    apply NoDup_singleton.
Defined.

(** ** Further properties of the member functions *)

Section Further.
Context {B : Type} `{!PlaylistBackend.Interface B}.
Context `{!PlaylistParser.Interface} `{!Utilities.Interface}.
Implicit Type s : t B.
Implicit Type r : Run B.

(** X2: [AddPlaylist] ends normally in every state.  It files under
    [id], with the name, a playlist bound to [id] and to the manager's
    sequence, replacing the entry the index may have had there; it moves
    a cursor to [id] only when that cursor is at the sentinel -1; it emits
    [PlaylistAdded] first; and it neither writes to the store nor touches
    the selection. *)
Theorem AddPlaylist_registers s id name :
  ∃ s' playlist more,
    exec (AddPlaylist id name) s = Done s' ∧
    playlists_ s' = <[id := mkData playlist name]> (playlists_ s) ∧
    Playlist.id playlist = id ∧
    Playlist.sequence playlist = sequence_ s ∧
    current_ s' = (if bool_decide (current_ s = -1) then id else current_ s) ∧
    active_ s' = (if bool_decide (active_ s = -1) then id else active_ s) ∧
    emitted s' = emitted s ++ PlaylistAdded id name :: more ∧
    playlist_backend_ s' = playlist_backend_ s ∧
    current_selection_ s' = current_selection_ s.
Proof.
  destruct (added_fields id name s)
    as (Hindex & Hcurrent & Hactive & Hstore & _ & _ & Hselection).
  exists (added id name s), (p (new_entry id name s)).
  assert (∃ more, emitted (added id name s)
                  = emitted s ++ PlaylistAdded id name :: more) as [more Hmore].
  { unfold added, made_active. simpl.
    destruct (bool_decide (current_ s = -1)); simpl;
      destruct (bool_decide (active_ s = -1)) eqn:Hact; simpl.
    - apply bool_decide_eq_true in Hact.
      rewrite old_active_unset_none by done. simpl.
      eexists. rewrite <- !app_assoc. reflexivity.
    - eexists. rewrite <- !app_assoc. reflexivity.
    - apply bool_decide_eq_true in Hact.
      rewrite old_active_unset_none by done. simpl.
      eexists. rewrite <- !app_assoc. reflexivity.
    - exists []. reflexivity. }
  exists more. split; [apply exec_AddPlaylist|]. done.
Qed.

(** X3: [SetCurrentPlaylist id] on a playlist of the index assigns the
    cursor, then emits [CurrentChanged] and then the summary of the
    playlist that has just become current; nothing else changes. *)
Theorem SetCurrentPlaylist_emits s id data :
  playlists_ s !! id = Some data →
  exec (SetCurrentPlaylist id) s
  = Done (set_emitted
            (emitted s ++ [CurrentChanged (Some id);
                           SummaryTextChanged (summary_text s (p data))])
            (set_current_ id s)).
Proof.
  intros Hid. unfold exec.
  by destruct (SetCurrentPlaylist_run id data (mkRun s []) Hid) as [visited ->].
Qed.

(** X4: [SelectionChanged] replaces the selection wholesale and emits the
    summary of the current playlist under the new selection, in which the
    selection held before plays no part.  When the current cursor is not
    a key of the index the run stops at a null pointer, the selection
    replaced and nothing emitted. *)
Theorem SelectionChanged_replaces s selection :
  match playlists_ s !! current_ s with
  | Some data =>
      exec (SelectionChanged selection) s
      = Done (set_emitted
                (emitted s
                   ++ [SummaryTextChanged
                         (render (int (selectedCount selection))
                            (Playlist.rowCount (p data))
                            (summary_duration (int (selectedCount selection))
                               (quint64 (selectedSeconds selection))
                               (p data)))])
                (set_current_selection_ selection s))
  | None =>
      exec (SelectionChanged selection) s
      = Aborted NullPointer (set_current_selection_ selection s)
  end.
Proof.
  unfold exec, SelectionChanged. unfold_monad.
  destruct (playlists_ s !! current_ s) as [data|] eqn:Hcur.
  - rewrite (UpdateSummaryText_run _ data) by done. reflexivity.
  - unfold UpdateSummaryText. step. by rewrite Hcur.
Qed.

(** X5: [Rename] of a playlist of the index renames it in the store and
    then in the index, and emits [PlaylistRenamed]: the playlist itself
    (its items and playing row), the other entries, the cursors and the
    selection stay as they are. *)
Theorem Rename_renames s id data store new_name :
  playlists_ s !! id = Some data →
  playlist_backend_ s = Some store →
  exec (Rename id new_name) s
  = Done (set_emitted (emitted s ++ [PlaylistRenamed id new_name])
            (set_playlists_ (<[id := mkData (p data) new_name]> (playlists_ s))
               (set_playlist_backend_
                  (Some (PlaylistBackend.RenamePlaylist id new_name store)) s))).
Proof.
  intros Hid Hstore. unfold exec, Rename. step.
  rewrite Hid. simpl. rewrite Hstore. simpl.
  do 2 f_equal. unfold set_playlists_. simpl. f_equal.
  apply map_eq. intros k. destruct (decide (id = k)) as [<-|Hne].
  - by rewrite lookup_alter_eq, lookup_insert_eq, Hid.
  - by rewrite lookup_alter_ne, lookup_insert_ne.
Qed.

(** *** Starting on a store *)

Lemma cursor_after_set cursor rows :
  cursor ≠ -1 → cursor_after cursor rows = cursor.
Proof.
  revert cursor. induction rows as [|row rows IH]; intros cursor Hset; [done|].
  unfold cursor_after. cbn [foldl].
  rewrite bool_decide_eq_false_2 by done. by apply IH.
Qed.

Lemma foreach_AddPlaylist_cursors (rows : list PlaylistBackend.Playlist) r :
  ∃ r',
    foreach rows (λ row, AddPlaylist (PlaylistBackend.id row)
                                     (PlaylistBackend.name row);; mret tt) r
    = Done (tt, r') ∧
    current_ (now r') = cursor_after (current_ (now r)) rows ∧
    active_ (now r') = cursor_after (active_ (now r)) rows ∧
    (∀ k, is_Some (playlists_ (now r') !! k)
          ↔ is_Some (playlists_ (now r) !! k) ∨ k ∈ PlaylistBackend.id <$> rows) ∧
    playlist_backend_ (now r') = playlist_backend_ (now r).
Proof.
  revert r. induction rows as [|row rows IH]; intros r.
  - exists r. split; [done|]. split; [done|]. split; [done|]. split; [|done].
    intros k. split; [by left|]. intros [?|Hk]; [done|].
    by apply elem_of_nil in Hk.
  - cbn [foreach]. unfold_monad.
    destruct (AddPlaylist_run (PlaylistBackend.id row)
                (PlaylistBackend.name row) r) as [visited ->].
    destruct (added_fields (PlaylistBackend.id row)
                (PlaylistBackend.name row) (now r))
      as (Hindex & Hcurrent & Hactive & Hstore & _).
    match goal with
    | |- context [foreach rows ?body ?r1] =>
        destruct (IH r1) as (r' & -> & Hcurrent' & Hactive' & Hkeys' & Hstore')
    end.
    exists r'. cbn [now] in *. split; [done|].
    rewrite Hcurrent', Hactive', Hstore', Hcurrent, Hactive, Hstore.
    split; [done|]. split; [done|]. split; [|done].
    intros k. rewrite Hkeys', Hindex, fmap_cons, elem_of_cons.
    destruct (decide (PlaylistBackend.id row = k)) as [<-|Hne].
    + rewrite lookup_insert_eq. split; [intros _; right; by left|].
      intros _. left. by eexists.
    + rewrite lookup_insert_ne by done. split.
      * intros [?|?]; [by left|right; by right].
      * intros [?|[?|?]]; [by left|congruence|by right].
Qed.

(** X6: on a store that lists playlists, the first with an id other than
    -1, [Init] on the constructed manager ends normally: the keys of the
    index are the listed ids, both cursors are on the first listed
    playlist, and the store has not been written to. *)
Theorem Init_registers_stored library_backend store sequence row rows :
  PlaylistBackend.GetAllPlaylists store = row :: rows →
  PlaylistBackend.id row ≠ -1 →
  ∃ s,
    exec (Init library_backend store sequence) constructed = Done s ∧
    current_ s = PlaylistBackend.id row ∧
    active_ s = PlaylistBackend.id row ∧
    (∀ k, is_Some (playlists_ s !! k)
          ↔ k ∈ PlaylistBackend.id <$> row :: rows) ∧
    playlist_backend_ s = Some store.
Proof.
  intros Hrows Hid. pose proof foreach_AddPlaylist_cursors as Hloop.
  unfold exec, Init. step. rewrite Hrows.
  match goal with
  | |- context [foreach _ ?body ?r0] =>
      destruct (Hloop (row :: rows) r0)
        as (r' & -> & Hcurrent & Hactive & Hkeys & Hstore)
  end.
  simpl in Hcurrent, Hactive, Hkeys, Hstore.
  assert (cursor_after (-1) (row :: rows) = PlaylistBackend.id row) as Hfirst.
  { unfold cursor_after. cbn [foldl]. rewrite bool_decide_eq_true_2 by done.
    by apply cursor_after_set. }
  rewrite Hfirst in Hcurrent, Hactive.
  assert (∀ k, is_Some (playlists_ (now r') !! k)
               ↔ k ∈ PlaylistBackend.id <$> row :: rows) as Hkeys'.
  { intros k. rewrite Hkeys. split; [intros [[data Hk]|?]; [|done]|by right].
    change ((∅ : gmap Z Data) !! k = Some data) in Hk.
    by rewrite lookup_empty in Hk. }
  rewrite bool_decide_eq_false_2.
  - exists (now r'). done.
  - apply (lookup_is_Some_non_empty _ (PlaylistBackend.id row)).
    apply Hkeys'. rewrite fmap_cons. apply elem_of_cons. by left.
Qed.

(** X7: on a store that lists no playlist, [Init] on the constructed
    manager asks the store for a playlist named "Playlist".  When the
    store answers -1 the run dies with [qFatal], the collaborators known
    to the manager, the index empty, both cursors unset and nothing
    emitted; otherwise the index holds that one playlist, empty, and both
    cursors are on it. *)
Theorem Init_creates_default library_backend store sequence :
  PlaylistBackend.GetAllPlaylists store = [] →
  let id := (PlaylistBackend.CreatePlaylist "Playlist" store).1 in
  let store' := (PlaylistBackend.CreatePlaylist "Playlist" store).2 in
  (id = -1 →
   exec (Init library_backend store sequence) constructed
   = Aborted FatalError
             (mk (Some store') (Some library_backend) (Some sequence)
                 ∅ [] (-1) (-1) [])) ∧
  (id ≠ -1 →
   ∃ s,
     exec (Init library_backend store sequence) constructed = Done s ∧
     playlists_ s
     = {[id := mkData (empty_playlist id (Some sequence)) "Playlist"]} ∧
     current_ s = id ∧
     active_ s = id ∧
     playlist_backend_ s = Some store').
Proof.
  intros Hrows. simpl. unfold exec, Init. step. rewrite Hrows. simpl.
  rewrite bool_decide_eq_true_2 by done.
  match goal with
  | |- context [New _ _ ?r0] =>
      destruct (New_run (tr "Playlist") [] store r0 eq_refl) as [Hdies Hdone]
  end.
  simpl in Hdies, Hdone. unfold tr in *.
  split; intros Hid.
  - by rewrite Hdies.
  - destruct (Hdone Hid) as (s' & visited & -> & Hindex & Hcurrent & Hactive & Hstore);
      [by left|].
    exists s'. split; [done|]. split; [|done].
    rewrite Hindex. apply insert_empty.
Qed.

(** *** Removing a playlist, and what follows *)

Lemma constBegin_least (m : gmap Z Data) k data :
  m !! k = Some data → (∀ k', is_Some (m !! k') → k ≤ k') →
  constBegin m = Some (k, data).
Proof.
  intros Hk Hleast.
  destruct (constBegin_is_Some m) as [[k1 data1] Hfirst];
    [by eapply lookup_is_Some_non_empty|].
  destruct (constBegin_Some _ _ _ Hfirst) as [Hk1 Hleast1].
  assert (k1 = k) as ->.
  { assert (k ≤ k1) by (apply Hleast; by eexists).
    assert (k1 ≤ k) by (apply Hleast1; by eexists). lia. }
  rewrite Hfirst. congruence.
Qed.

(** X8: [Remove] of a playlist that is not the first of an index of
    several ends normally: the index loses that entry and no other; a
    cursor that was on the removed playlist is on the first playlist of
    the index afterwards, a cursor that was elsewhere has not moved; both
    cursors are keys of the index and differ from the removed id. *)
Theorem Remove_repoints_to_first s id store k0 first :
  well_formed s →
  playlist_backend_ s = Some store →
  is_Some (playlists_ s !! id) →
  ¬ (size (playlists_ s) ≤ 1)%nat →
  constBegin (playlists_ s) = Some (k0, first) →
  k0 ≠ id →
  ∃ s',
    exec (Remove id) s = Done s' ∧
    playlists_ s' = delete id (playlists_ s) ∧
    active_ s' = (if bool_decide (id = active_ s) then k0 else active_ s) ∧
    current_ s' = (if bool_decide (id = current_ s) then k0 else current_ s) ∧
    is_Some (playlists_ s' !! active_ s') ∧
    is_Some (playlists_ s' !! current_ s') ∧
    active_ s' ≠ id ∧ current_ s' ≠ id ∧
    playlist_backend_ s' = Some (PlaylistBackend.RemovePlaylist id store).
Proof.
  intros [(_ & [current Hcurrent] & [active Hactive]) Hkeyed]
    Hstore Hid Hsize Hfirst Hne.
  destruct (constBegin_Some _ _ _ Hfirst) as [Hk0 _].
  pose proof (Hkeyed _ _ Hk0) as Hnext.
  destruct (Remove_run id store (k0, first) s)
    as (s' & Hrun & Hindex & Hactive' & Hcurrent' & Hstore');
    [done|done|done|done|simpl; rewrite Hnext; by eexists|].
  simpl in Hactive', Hcurrent'. rewrite Hnext in Hactive', Hcurrent'.
  exists s'. split; [done|]. split; [done|]. split; [done|]. split; [done|].
  assert (is_Some (playlists_ s' !! active_ s')) as Hact.
  { rewrite Hindex, Hactive'. by eapply cursor_after_delete. }
  assert (is_Some (playlists_ s' !! current_ s')) as Hcur.
  { rewrite Hindex, Hcurrent'. by eapply cursor_after_delete. }
  split; [done|]. split; [done|].
  split; [|split; [|done]].
  - intros Heq. rewrite Heq, Hindex, lookup_delete_eq in Hact. by destruct Hact.
  - intros Heq. rewrite Heq, Hindex, lookup_delete_eq in Hcur. by destruct Hcur.
Qed.

(** X10: after [Remove] has taken the first playlist out of an index of
    several, a cursor that was on it is on no playlist, and the next run
    that goes through that cursor stops at a null pointer:
    [UpdateSummaryText] and [SelectionChanged] when it is the current
    cursor, [SetActivePlaylist] on any remaining playlist when it is the
    active one. *)
Theorem Remove_first_then_null_pointer s id store first :
  keyed s →
  playlist_backend_ s = Some store →
  ¬ (size (playlists_ s) ≤ 1)%nat →
  constBegin (playlists_ s) = Some (id, first) →
  ∃ s',
    exec (Remove id) s = Done s' ∧
    (current_ s = id →
     exec UpdateSummaryText s' = Aborted NullPointer s' ∧
     ∀ selection,
       exec (SelectionChanged selection) s'
       = Aborted NullPointer (set_current_selection_ selection s')) ∧
    (active_ s = id → id ≠ -1 →
     ∀ k, is_Some (playlists_ s' !! k) →
          exec (SetActivePlaylist k) s' = Aborted NullPointer s').
Proof.
  intros Hkeyed Hstore Hsize Hfirst.
  destruct (constBegin_Some _ _ _ Hfirst) as [Hid _].
  pose proof (Hkeyed _ _ Hid) as Hnext.
  destruct (Remove_run id store (id, first) s)
    as (s' & Hrun & Hindex & Hactive & Hcurrent & _);
    [done|by eexists|done|done|simpl; rewrite Hnext; by eexists|].
  simpl in Hactive, Hcurrent. rewrite Hnext in Hactive, Hcurrent.
  rewrite cursor_stays in Hactive, Hcurrent.
  exists s'. split; [done|]. split.
  - intros Hcur.
    assert (playlists_ s' !! current_ s' = None) as Hgone
      by (by rewrite Hcurrent, Hcur, Hindex, lookup_delete_eq).
    split; [|intros selection]; unfold exec, SelectionChanged, UpdateSummaryText;
      step; by rewrite Hgone.
  - intros Hact Hset k [data Hk].
    assert (playlists_ s' !! active_ s' = None) as Hgone
      by (by rewrite Hactive, Hact, Hindex, lookup_delete_eq).
    assert (active_ s' ≠ k) as Hne by (intros Heq; congruence).
    unfold exec, SetActivePlaylist. step. rewrite Hk. simpl.
    rewrite !bool_decide_eq_true_2 by congruence. simpl.
    by rewrite Hgone.
Qed.

(** X11: creating a playlist and removing it again gives back the index as
    it was, but not the current cursor: with an allocated id that is new
    and above the first key of the index, the cursor ends on the first
    playlist of the index, wherever it was before.  The active cursor has
    not moved. *)
Theorem New_then_Remove s store name songs k0 first :
  well_formed s →
  playlist_backend_ s = Some store →
  active_ s ≠ -1 →
  constBegin (playlists_ s) = Some (k0, first) →
  let id := (PlaylistBackend.CreatePlaylist name store).1 in
  let store' := (PlaylistBackend.CreatePlaylist name store).2 in
  id ≠ -1 →
  playlists_ s !! id = None →
  k0 < id →
  ∃ s1 s2,
    exec (New name songs) s = Done s1 ∧
    exec (Remove id) s1 = Done s2 ∧
    playlists_ s2 = playlists_ s ∧
    current_ s2 = k0 ∧
    active_ s2 = active_ s ∧
    playlist_backend_ s2 = Some (PlaylistBackend.RemovePlaylist id store').
Proof.
  intros [(Hnonempty & Hcurrent & [active Hactive]) Hkeyed] Hstore Hset Hfirst.
  simpl. intros Hid Hfresh Hlt.
  destruct (constBegin_Some _ _ _ Hfirst) as [Hk0 Hleast].
  pose proof (Hkeyed _ _ Hk0) as Hnext.
  destruct (New_run name songs store (mkRun s []) Hstore) as [_ Hdone].
  destruct (Hdone Hid (or_intror Hcurrent))
    as (s1 & visited & Hnew & Hindex1 & Hcurrent1 & Hactive1 & Hstore1).
  simpl in Hindex1, Hactive1.
  rewrite bool_decide_eq_false_2 in Hactive1 by done.
  set (id := (PlaylistBackend.CreatePlaylist name store).1) in *.
  assert (constBegin (playlists_ s1) = Some (k0, first)) as Hfirst1.
  { apply constBegin_least.
    - rewrite Hindex1, lookup_insert_ne by lia. done.
    - intros k'. rewrite Hindex1.
      destruct (decide (id = k')) as [<-|Hne]; [lia|].
      rewrite lookup_insert_ne by done. apply Hleast. }
  destruct (Remove_run id _ (k0, first) s1 Hstore1)
    as (s2 & Hremove & Hindex2 & Hactive2 & Hcurrent2 & Hstore2).
  - rewrite Hindex1, lookup_insert_eq. by eexists.
  - rewrite Hindex1, map_size_insert_None by done.
    apply map_size_non_empty_iff in Hnonempty. lia.
  - done.
  - simpl. rewrite Hnext, Hindex1, lookup_insert_ne by lia. by eexists.
  - simpl in Hactive2, Hcurrent2. rewrite Hnext in Hactive2, Hcurrent2.
    exists s1, s2. split; [unfold exec; by rewrite Hnew|]. split; [done|].
    split; [by rewrite Hindex2, Hindex1, delete_insert_id|].
    split.
    + rewrite Hcurrent2, Hcurrent1. by rewrite bool_decide_eq_true_2.
    + split; [|done]. rewrite Hactive2, Hactive1.
      rewrite bool_decide_eq_false_2; [done|].
      intros Heq. rewrite <- Heq, Hfresh in Hactive. done.
Qed.

(** *** The catalog sync, besides the items it updates *)

Lemma discovered_unreferenced songs item :
  (∀ song, song ∈ songs → PlaylistItem.references (Song.id song) item = false) →
  discovered songs item = item.
Proof.
  revert item. induction songs as [|song songs IH]; intros item Hnone; [done|].
  change (discovered (song :: songs) item)
    with (discovered songs (discovered1 song item)).
  unfold discovered1. rewrite Hnone by (apply elem_of_cons; by left).
  apply IH. intros song' Hsong'. apply Hnone. apply elem_of_cons. by right.
Qed.

Lemma songs_discovered_app songs1 songs2 data :
  songs_discovered (songs1 ++ songs2) data
  = songs_discovered songs2 (songs_discovered songs1 data).
Proof.
  unfold songs_discovered, set_p, Playlist.set_items.
  destruct data as [[id seq playing items] name]. simpl.
  rewrite <- list_fmap_compose. do 2 f_equal.
  apply list_fmap_ext. intros i item _. simpl.
  unfold discovered. by rewrite foldl_app.
Qed.

(** X12: [SongsDiscovered] changes nothing but the metadata of the items
    that reference a discovered song.  It emits no signal (so no new
    summary), moves no cursor and leaves the store and the selection
    alone; every playlist keeps its key, name, id, sequence, playing row
    and number of rows; and an item that is not catalog-backed, or whose
    id no discovered song carries, stays as it is, in its place. *)
Theorem SongsDiscovered_frame s songs :
  ∃ s',
    exec (SongsDiscovered songs) s = Done s' ∧
    emitted s' = emitted s ∧
    current_ s' = current_ s ∧
    active_ s' = active_ s ∧
    playlist_backend_ s' = playlist_backend_ s ∧
    current_selection_ s' = current_selection_ s ∧
    (∀ k, playlists_ s !! k = None → playlists_ s' !! k = None) ∧
    (∀ k data,
       playlists_ s !! k = Some data →
       ∃ data',
         playlists_ s' !! k = Some data' ∧
         name data' = name data ∧
         Playlist.id (p data') = Playlist.id (p data) ∧
         Playlist.sequence (p data') = Playlist.sequence (p data) ∧
         Playlist.current_index (p data') = Playlist.current_index (p data) ∧
         length (Playlist.items (p data')) = length (Playlist.items (p data)) ∧
         ∀ i item,
           Playlist.items (p data) !! i = Some item →
           (∀ song, song ∈ songs →
                    PlaylistItem.references (Song.id song) item = false) →
           Playlist.items (p data') !! i = Some item).
Proof.
  unfold exec.
  destruct (SongsDiscovered_run songs (mkRun s [])) as [visited ->].
  eexists. split; [reflexivity|]. simpl.
  do 5 (split; [done|]). split.
  - intros k Hk. by rewrite lookup_fmap, Hk.
  - intros k data Hk. exists (songs_discovered songs data).
    split; [by rewrite lookup_fmap, Hk|].
    do 4 (split; [done|]). split.
    + simpl. by rewrite length_fmap.
    + intros i item Hi Hnone. simpl.
      rewrite list_lookup_fmap, Hi. simpl.
      by rewrite discovered_unreferenced.
Qed.

(** X13: discovering the songs in two batches, one after the other, ends
    in the state that discovering them in one batch ends in. *)
Theorem SongsDiscovered_in_batches s songs1 songs2 :
  ∃ s1 s2,
    exec (SongsDiscovered songs1) s = Done s1 ∧
    exec (SongsDiscovered songs2) s1 = Done s2 ∧
    exec (SongsDiscovered (songs1 ++ songs2)) s = Done s2.
Proof.
  set (s1 := set_playlists_ (songs_discovered songs1 <$> playlists_ s) s).
  destruct (SongsDiscovered_run songs1 (mkRun s [])) as [visited1 Hrun1].
  destruct (SongsDiscovered_run songs2 (mkRun s1 [])) as [visited2 Hrun2].
  destruct (SongsDiscovered_run (songs1 ++ songs2) (mkRun s [])) as [visited Hrun].
  exists s1, (set_playlists_ (songs_discovered songs2 <$> playlists_ s1) s1).
  unfold exec. rewrite Hrun1, Hrun2, Hrun. simpl.
  split; [done|]. split; [done|]. f_equal.
  destruct s. unfold set_playlists_. simpl. f_equal.
  rewrite <- map_fmap_compose. apply map_fmap_ext.
  intros k data _. apply songs_discovered_app.
Qed.

(** *** What is never written to the store *)

(** X15: registering a playlist, moving a cursor, changing the selection,
    syncing with the catalog and recomputing the summary never write to
    the store: whenever such a run ends normally, the store is in the
    state it was in. *)
Theorem cursors_are_not_persisted op s s' :
  match op with
  | OpRegister _ _ | OpSetCurrent _ | OpSetActive _ | OpSelectionChanged _
  | OpCatalogSync _ | OpUpdateSummary => True
  | _ => False
  end →
  exec (perform op) s = Done s' →
  playlist_backend_ s' = playlist_backend_ s.
Proof.
  intros Hop Hrun.
  destruct op as [id name|name songs|id new_name|id|id|id|ids|selection
                 |songs|filename|]; try done; simpl in Hrun.
  - destruct (added_fields id name s) as (_ & _ & _ & Hstore & _).
    pose proof (exec_AddPlaylist id name s) as Hadd.
    unfold exec in *. unfold_monad.
    destruct (AddPlaylist id name _) as [[ptr r']|]; [|done].
    simplify_eq. by rewrite Hadd.
  - by apply SetCurrentPlaylist_effect in Hrun as (_ & _ & _ & _ & ?).
  - revert Hrun. unfold exec, SetActivePlaylist. step.
    destruct (playlists_ s !! id) as [data|] eqn:Hid; simpl; [|done].
    destruct (bool_decide (active_ s ≠ -1) && bool_decide (active_ s ≠ id));
      simpl.
    + destruct (playlists_ s !! active_ s) as [old|] eqn:Hold; simpl; [|done].
      rewrite Hold. simpl. intros Hrun. by simplify_eq.
    + intros Hrun. by simplify_eq.
  - revert Hrun. unfold exec, SelectionChanged. unfold_monad.
    destruct (playlists_ s !! current_ s) as [data|] eqn:Hcur.
    + rewrite (UpdateSummaryText_run _ data) by done. by intros [= <-].
    + unfold UpdateSummaryText. step. by rewrite Hcur.
  - revert Hrun. unfold exec.
    destruct (SongsDiscovered_run songs (mkRun s [])) as [visited ->].
    by intros [= <-].
  - by apply UpdateSummaryText_effect in Hrun as (_ & _ & _ & ?).
Qed.

(** *** Switching the active playlist *)

(** X16: [SetActivePlaylist id], on a playlist of the index and with the
    active cursor at the sentinel or on a playlist of the index, ends
    normally and emits [ActiveChanged] once.  Every playlist keeps its
    key, name, id, sequence and items; the only playing row that changes
    is that of the playlist that was active, unset when that playlist is
    not [id]; the current cursor, the selection and the store stay. *)
Theorem SetActivePlaylist_frame s id :
  is_Some (playlists_ s !! id) →
  (active_ s ≠ -1 → active_ s ≠ id → is_Some (playlists_ s !! active_ s)) →
  ∃ s',
    exec (SetActivePlaylist id) s = Done s' ∧
    active_ s' = id ∧
    emitted s' = emitted s ++ [ActiveChanged (Some id)] ∧
    current_ s' = current_ s ∧
    current_selection_ s' = current_selection_ s ∧
    playlist_backend_ s' = playlist_backend_ s ∧
    (∀ k, playlists_ s !! k = None → playlists_ s' !! k = None) ∧
    (∀ k data,
       playlists_ s !! k = Some data →
       playlists_ s' !! k
       = Some (mkData
                 (Playlist.set_current_index
                    (if bool_decide (k = active_ s ∧ active_ s ≠ -1
                                     ∧ active_ s ≠ id)
                     then -1 else Playlist.current_index (p data))
                    (p data))
                 (name data))).
Proof.
  intros Hid Hold. unfold exec.
  destruct (SetActivePlaylist_run id (mkRun s []) Hid Hold) as [visited ->].
  exists (made_active id s). split; [done|].
  unfold made_active, old_active_unset. simpl.
  destruct (bool_decide (active_ s ≠ -1) && bool_decide (active_ s ≠ id))
    eqn:Hcond.
  - apply andb_prop in Hcond as [Hset%bool_decide_eq_true Hne%bool_decide_eq_true].
    destruct (Hold Hset Hne) as [old Hactive]. rewrite Hactive. simpl.
    do 5 (split; [done|]). split.
    + intros k Hk. rewrite lookup_insert_ne; [done|]. congruence.
    + intros k data Hk. destruct (decide (active_ s = k)) as [<-|Hother].
      * rewrite lookup_insert_eq, bool_decide_eq_true_2 by done.
        by simplify_eq.
      * rewrite lookup_insert_ne by done.
        rewrite bool_decide_eq_false_2 by (intros (? & _); congruence).
        rewrite Hk. by destruct data as [[] ?].
  - do 5 (split; [done|]). split; [done|].
    intros k data Hk. rewrite Hk.
    rewrite bool_decide_eq_false_2.
    + by destruct data as [[] ?].
    + intros (_ & Hset & Hne).
      apply andb_false_iff in Hcond as [Hc%bool_decide_eq_false
                                       |Hc%bool_decide_eq_false]; done.
Qed.

End Further.

(** ** The further properties on the sample store *)

Lemma manager12_well_formed : well_formed Sample.manager12.
Proof. exact (Init_well_formed _ _ _ _ started_on_store12). Qed.

(** Playlist 2 becomes current. *)
Lemma SetCurrentPlaylist_emits_witness :
  exec (SetCurrentPlaylist 2) Sample.manager12
  = Done (set_emitted
            (emitted Sample.manager12
               ++ [CurrentChanged (Some 2);
                   SummaryTextChanged
                     (summary_text Sample.manager12
                        (p (Sample.playlist_of 2 "Two" [] (-1))))])
            (set_current_ 2 Sample.manager12)).
Proof.
  apply (SetCurrentPlaylist_emits Sample.manager12 2
           (Sample.playlist_of 2 "Two" [] (-1))).
  vm_compute. reflexivity.
Defined.

(** Playlist 1 of [manager5], with its five tracks, is renamed. *)
Lemma Rename_renames_witness :
  exec (Rename 1 "Uno") Sample.manager5
  = Done (set_emitted (emitted Sample.manager5 ++ [PlaylistRenamed 1 "Uno"])
            (set_playlists_
               (<[1 := mkData (p (Sample.playlist_of 1 "One" Sample.five_items 2))
                              "Uno"]> (playlists_ Sample.manager5))
               (set_playlist_backend_
                  (Some (PlaylistBackend.RenamePlaylist 1 "Uno" Sample.store12))
                  Sample.manager5))).
Proof.
  apply (Rename_renames Sample.manager5 1
           (Sample.playlist_of 1 "One" Sample.five_items 2) Sample.store12 "Uno").
  - vm_compute. reflexivity.
  - reflexivity.
Defined.

(** The store lists the playlists 1 and 2. *)
Lemma Init_registers_stored_witness :
  ∃ s,
    exec (Init (LibraryBackend_at 1) Sample.store12 (PlaylistSequence_at 1))
         constructed = Done s ∧
    current_ s = 1 ∧
    active_ s = 1 ∧
    (∀ k, is_Some (playlists_ s !! k)
          ↔ k ∈ PlaylistBackend.id
                <$> [PlaylistBackend.mk 1 "One"; PlaylistBackend.mk 2 "Two"]) ∧
    playlist_backend_ s = Some Sample.store12.
Proof.
  apply (Init_registers_stored (LibraryBackend_at 1) Sample.store12
           (PlaylistSequence_at 1) (PlaylistBackend.mk 1 "One")
           [PlaylistBackend.mk 2 "Two"]).
  - reflexivity.
  - simpl. lia.
Defined.

(** An empty store that allocates the id 1, and an empty store that
    refuses. *)
Lemma Init_creates_default_witness :
  (∃ s,
     exec (Init (LibraryBackend_at 1) (Sample.mkStore [] 1 true)
                (PlaylistSequence_at 1)) constructed = Done s ∧
     playlists_ s
     = {[1 := mkData (empty_playlist 1 (Some (PlaylistSequence_at 1)))
                     "Playlist"]} ∧
     current_ s = 1 ∧
     active_ s = 1 ∧
     playlist_backend_ s
     = Some (Sample.mkStore [PlaylistBackend.mk 1 "Playlist"] 2 true)) ∧
  exec (Init (LibraryBackend_at 1) (Sample.mkStore [] 1 false)
             (PlaylistSequence_at 1)) (constructed (B:=Sample.Store))
  = Aborted FatalError
            (mk (Some (Sample.mkStore [] 1 false)) (Some (LibraryBackend_at 1))
                (Some (PlaylistSequence_at 1)) ∅ [] (-1) (-1) []).
Proof.
  split.
  - assert (PlaylistBackend.GetAllPlaylists (Sample.mkStore [] 1 true) = [])
      as Hrows by reflexivity.
    apply (proj2 (Init_creates_default (LibraryBackend_at 1)
                    (Sample.mkStore [] 1 true) (PlaylistSequence_at 1) Hrows)).
    simpl. lia.
  - assert (PlaylistBackend.GetAllPlaylists (Sample.mkStore [] 1 false) = [])
      as Hrows by reflexivity.
    apply (proj1 (Init_creates_default (LibraryBackend_at 1)
                    (Sample.mkStore [] 1 false) (PlaylistSequence_at 1) Hrows)).
    reflexivity.
Defined.

(** Both cursors are on playlist 2, which is removed: they move to 1. *)
Lemma Remove_repoints_to_first_witness :
  ∃ s',
    exec (Remove 2) (set_current_ 2 (set_active_ 2 Sample.manager12)) = Done s' ∧
    playlists_ s' = delete 2 (playlists_ Sample.manager12) ∧
    active_ s' = 1 ∧
    current_ s' = 1 ∧
    is_Some (playlists_ s' !! active_ s') ∧
    is_Some (playlists_ s' !! current_ s') ∧
    active_ s' ≠ 2 ∧ current_ s' ≠ 2 ∧
    playlist_backend_ s'
    = Some (PlaylistBackend.RemovePlaylist 2 Sample.store12).
Proof.
  apply (Remove_repoints_to_first
           (set_current_ 2 (set_active_ 2 Sample.manager12)) 2 Sample.store12
           1 (Sample.playlist_of 1 "One" [] (-1))).
  - split; [|exact (proj2 manager12_well_formed)].
    split; [|split]; vm_compute; [discriminate|eexists; reflexivity..].
  - reflexivity.
  - vm_compute. eexists. reflexivity.
  - vm_compute. lia.
  - vm_compute. reflexivity.
  - lia.
Defined.

(** Both cursors are on playlist 1, the first, which is removed. *)
Lemma Remove_first_dangles_witness :
  ∃ s',
    exec (Remove 1) Sample.manager12 = Done s' ∧
    playlists_ s' !! 1 = None ∧
    active_ s' = active_ Sample.manager12 ∧
    current_ s' = current_ Sample.manager12.
Proof.
  apply (Remove_first_dangles 1 (Sample.playlist_of 1 "One" [] (-1))
           Sample.store12 Sample.manager12).
  - exact manager12_well_formed.
  - reflexivity.
  - vm_compute. lia.
  - vm_compute. reflexivity.
Defined.

Lemma Remove_first_then_null_pointer_witness :
  ∃ s',
    exec (Remove 1) Sample.manager12 = Done s' ∧
    (current_ Sample.manager12 = 1 →
     exec UpdateSummaryText s' = Aborted NullPointer s' ∧
     ∀ selection,
       exec (SelectionChanged selection) s'
       = Aborted NullPointer (set_current_selection_ selection s')) ∧
    (active_ Sample.manager12 = 1 → 1 ≠ -1 →
     ∀ k, is_Some (playlists_ s' !! k) →
          exec (SetActivePlaylist k) s' = Aborted NullPointer s').
Proof.
  apply (Remove_first_then_null_pointer Sample.manager12 1 Sample.store12
           (Sample.playlist_of 1 "One" [] (-1))).
  - exact (proj2 manager12_well_formed).
  - reflexivity.
  - vm_compute. lia.
  - vm_compute. reflexivity.
Defined.

Example SetActivePlaylist_after_Remove_first :
  exec (SetActivePlaylist 2) Sample.manager12_without_1
  = Aborted NullPointer Sample.manager12_without_1 ∧
  exec UpdateSummaryText Sample.manager12_without_1
  = Aborted NullPointer Sample.manager12_without_1.
Proof. split; vm_compute; reflexivity. Qed.

(** The store allocates the id 3 for "Mix"; the current cursor was on 1,
    the first playlist, and is there again. *)
Lemma New_then_Remove_witness :
  ∃ s1 s2,
    exec (New "Mix" Sample.two_songs) Sample.manager12 = Done s1 ∧
    exec (Remove 3) s1 = Done s2 ∧
    playlists_ s2 = playlists_ Sample.manager12 ∧
    current_ s2 = 1 ∧
    active_ s2 = active_ Sample.manager12 ∧
    playlist_backend_ s2
    = Some (PlaylistBackend.RemovePlaylist 3
              (PlaylistBackend.CreatePlaylist "Mix" Sample.store12).2).
Proof.
  assert (constBegin (playlists_ Sample.manager12)
          = Some (1, Sample.playlist_of 1 "One" [] (-1))) as Hfirst
    by (vm_compute; reflexivity).
  assert (playlists_ Sample.manager12 !! 3 = None) as Hfresh
    by (vm_compute; reflexivity).
  exact (New_then_Remove Sample.manager12 Sample.store12 "Mix"
           Sample.two_songs 1 (Sample.playlist_of 1 "One" [] (-1))
           manager12_well_formed eq_refl ltac:(vm_compute; discriminate) Hfirst
           ltac:(vm_compute; discriminate) Hfresh
           ltac:(vm_compute; reflexivity)).
Defined.

(** The current cursor was on 2: after creating and removing "Mix" it is
    on 1. *)
Example New_then_Remove_moves_current :
  ∃ s1 s2,
    exec (New "Mix" Sample.two_songs) (set_current_ 2 Sample.manager12) = Done s1 ∧
    exec (Remove 3) s1 = Done s2 ∧
    playlists_ s2 = playlists_ Sample.manager12 ∧
    current_ s2 = 1.
Proof.
  eexists _, _. split; [vm_compute; reflexivity|].
  split; [vm_compute; reflexivity|]. split; vm_compute; reflexivity.
Qed.

(** [Init] on the sample store, then playlist 2 is made current. *)
Lemma reachable_well_formed_witness :
  well_formed
    (set_emitted
       (emitted Sample.manager12
          ++ [CurrentChanged (Some 2); SummaryTextChanged "0 tracks"])
       (set_current_ 2 Sample.manager12)).
Proof.
  apply reachable_well_formed.
  apply (reachable_step _ Sample.manager12 (OpSetCurrent 2)).
  - apply (reachable_Init _ (LibraryBackend_at 1) Sample.store12
             (PlaylistSequence_at 1)).
    vm_compute. reflexivity.
  - split; [|exact I]. vm_compute. eexists. reflexivity.
  - vm_compute. reflexivity.
Defined.

(** Making playlist 2 current leaves the store as it is. *)
Lemma cursors_are_not_persisted_witness :
  playlist_backend_
    (set_emitted
       (emitted Sample.manager12
          ++ [CurrentChanged (Some 2); SummaryTextChanged "0 tracks"])
       (set_current_ 2 Sample.manager12))
  = playlist_backend_ Sample.manager12.
Proof.
  apply (cursors_are_not_persisted (OpSetCurrent 2) Sample.manager12).
  - exact I.
  - vm_compute. reflexivity.
Defined.

(** Playlist 2 becomes active while playlist 1 plays its row 2. *)
Lemma SetActivePlaylist_frame_witness :
  ∃ s',
    exec (SetActivePlaylist 2) Sample.manager5 = Done s' ∧
    active_ s' = 2 ∧
    emitted s' = emitted Sample.manager5 ++ [ActiveChanged (Some 2)] ∧
    current_ s' = current_ Sample.manager5 ∧
    current_selection_ s' = current_selection_ Sample.manager5 ∧
    playlist_backend_ s' = playlist_backend_ Sample.manager5 ∧
    (∀ k, playlists_ Sample.manager5 !! k = None → playlists_ s' !! k = None) ∧
    (∀ k data,
       playlists_ Sample.manager5 !! k = Some data →
       playlists_ s' !! k
       = Some (mkData
                 (Playlist.set_current_index
                    (if bool_decide (k = active_ Sample.manager5
                                     ∧ active_ Sample.manager5 ≠ -1
                                     ∧ active_ Sample.manager5 ≠ 2)
                     then -1 else Playlist.current_index (p data))
                    (p data))
                 (name data))).
Proof.
  apply (SetActivePlaylist_frame Sample.manager5 2).
  - vm_compute. eexists. reflexivity.
  - intros _ _. vm_compute. eexists. reflexivity.
Defined.
